(** * Veracode SCA action: the report-URL extractor and its callers

    A shallow embedding of [src/srcclr.ts]: the collector allowlist filter
    [cleanCollectors], the report-URL extractor [extractScanUrl] with its four
    regular expressions and its JSON sidecar fallback, and the four
    scanner-invocation branches of [runAction].

    Strings are sequences of UTF-16 code units, as in the host language; the
    regular expressions run on code units (no [u] flag). *)

From Stdlib Require Import List NArith ZArith QArith Bool Lia String Ascii.
Import ListNotations.
Close Scope Q_scope.

Set Warnings "-register-all".

(* ================================================================== *)
(** ** Strings of code units *)

Module JsString.

Definition jschar := N.
Definition jsstring := list jschar.

(** An ASCII literal as a sequence of code units. *)
Fixpoint js (s : string) : jsstring :=
  match s with
  | EmptyString => []
  | String a r => N_of_ascii a :: js r
  end.

Local Open Scope N_scope.

(** The WhiteSpace and LineTerminator code points of the language: what
    [String.prototype.trim] strips and what [\s] matches. *)
Definition isWhiteSpace (c : jschar) : bool :=
  (c =? 9) || (c =? 10) || (c =? 11) || (c =? 12) || (c =? 13) ||
  (c =? 32) || (c =? 160) || (c =? 5760) ||
  ((8192 <=? c) && (c <=? 8202)) ||
  (c =? 8232) || (c =? 8233) || (c =? 8239) || (c =? 8287) ||
  (c =? 12288) || (c =? 65279).

Fixpoint trimStart (s : jsstring) : jsstring :=
  match s with
  | c :: r => if isWhiteSpace c then trimStart r else s
  | [] => []
  end.

Definition trimEnd (s : jsstring) : jsstring := rev (trimStart (rev s)).

Definition trim (s : jsstring) : jsstring := trimEnd (trimStart s).

Fixpoint startsWith (s p : jsstring) {struct p} : bool :=
  match p with
  | [] => true
  | a :: p' =>
      match s with
      | b :: s' => (a =? b) && startsWith s' p'
      | [] => false
      end
  end.

Fixpoint eqb (s t : jsstring) : bool :=
  match s, t with
  | [], [] => true
  | a :: s', b :: t' => (a =? b) && eqb s' t'
  | _, _ => false
  end.

(** Truthiness of a string: the empty string is the only falsy one. *)
Definition nonEmpty (s : jsstring) : bool :=
  match s with [] => false | _ :: _ => true end.

(** [s.split(sep)] for a one-unit separator. *)
Fixpoint split (sep : jschar) (s : jsstring) : list jsstring :=
  match s with
  | [] => [[]]
  | c :: r =>
      if c =? sep then [] :: split sep r
      else match split sep r with
           | l :: ls => (c :: l) :: ls
           | [] => [[c]]
           end
  end.

(** [arr.indexOf(x) > -1] on an array of strings. *)
Definition includes (arr : list jsstring) (x : jsstring) : bool :=
  existsb (eqb x) arr.

(** [arr.toString()]: the elements joined by commas. *)
Fixpoint join (arr : list jsstring) : jsstring :=
  match arr with
  | [] => []
  | [x] => x
  | x :: r => x ++ js "," ++ join r
  end.

End JsString.
Import JsString.

(* ================================================================== *)
(** ** The regular expressions

    Every quantifier in the source patterns applies to a single character or
    a single character class, and every pattern is a sequence of such atoms
    ending (at most) in one capture group.  The matcher below is the
    backtracking matcher of the language restricted to that shape: atoms are
    tried left to right, a greedy quantifier tries its longest run first and
    gives characters back one at a time, and the first success wins.  All
    patterns carry the [i] flag and no other: without [g] or [y] a match
    starts from the beginning of the text and leaves no state behind. *)

Module Regex.

Local Open Scope N_scope.

(** Case folding of the [i] flag.  Without the [u] flag a code unit is
    compared through its upper-case form, and a code unit of 128 or more
    never folds to one below 128; every literal of the source patterns is
    below 128, so folding the ASCII letters decides every comparison the
    patterns make. *)
Definition canonicalize (c : jschar) : jschar :=
  if (97 <=? c) && (c <=? 122) then c - 32 else c.

Definition sameChar (p x : jschar) : bool :=
  canonicalize p =? canonicalize x.

Inductive classItem :=
| ClsSpace              (* \s *)
| ClsChar (c : jschar). (* a literal member *)

Record charClass := { negated : bool; members : list classItem }.

Definition itemMatches (x : jschar) (i : classItem) : bool :=
  match i with
  | ClsSpace => isWhiteSpace x
  | ClsChar c => sameChar c x
  end.

Definition classMatches (cls : charClass) (x : jschar) : bool :=
  xorb (negated cls) (existsb (itemMatches x) (members cls)).

Inductive atom :=
| Lit (c : jschar)        (* c   *)
| Opt (c : jschar)        (* c?  *)
| Plus (cls : charClass). (* [...]+ *)

(** [head] is the part before the capture group, [group] the content of
    capture group 1, which closes the pattern. *)
Record regex := { head : list atom; group : list atom }.

Definition orElse {A} (a b : option A) : option A :=
  match a with Some _ => a | None => b end.

Section Matcher.
Context {A : Type}.

(** Greedy [cls*] followed by the continuation [k]. *)
Fixpoint star (cls : charClass) (s : jsstring)
         (k : jsstring -> option A) : option A :=
  match s with
  | x :: s' =>
      if classMatches cls x then orElse (star cls s' k) (k s) else k s
  | [] => k s
  end.

Definition plus (cls : charClass) (s : jsstring)
           (k : jsstring -> option A) : option A :=
  match s with
  | x :: s' => if classMatches cls x then star cls s' k else None
  | [] => None
  end.

Fixpoint matchAtoms (atoms : list atom) (s : jsstring)
         (k : jsstring -> option A) {struct atoms} : option A :=
  match atoms with
  | [] => k s
  | Lit c :: rest =>
      match s with
      | x :: s' => if sameChar c x then matchAtoms rest s' k else None
      | [] => None
      end
  | Opt c :: rest =>
      match s with
      | x :: s' =>
          if sameChar c x
          then orElse (matchAtoms rest s' k) (matchAtoms rest s k)
          else matchAtoms rest s k
      | [] => matchAtoms rest s k
      end
  | Plus cls :: rest => plus cls s (fun s' => matchAtoms rest s' k)
  end.
End Matcher.

(** A match anchored at the start of [s]; the result is capture group 1. *)
Definition matchHere (r : regex) (s : jsstring) : option jsstring :=
  matchAtoms (head r) s (fun s1 =>
    matchAtoms (group r) s1 (fun s2 =>
      Some (firstn (List.length s1 - List.length s2)%nat s1))).

(** [s.match(r)] for a pattern without the [g] flag: the match at the
    leftmost position that has one, the end of the string included. *)
Fixpoint exec (r : regex) (s : jsstring) : option jsstring :=
  match matchHere r s with
  | Some cap => Some cap
  | None => match s with
            | [] => None
            | _ :: s' => exec r s'
            end
  end.

Definition test (r : regex) (s : jsstring) : bool :=
  match exec r s with Some _ => true | None => false end.

Definition lits (s : string) : list atom := map Lit (js s).

Definition space : charClass :=
  {| negated := false; members := [ClsSpace] |}.              (* \s *)
Definition nonSpace : charClass :=
  {| negated := true; members := [ClsSpace] |}.               (* \S *)
Definition colonOrSpace : charClass :=
  {| negated := false; members := [ClsChar 58; ClsSpace] |}.  (* [:\s] *)
Definition notSpaceCrLf : charClass :=
  {| negated := true;
     members := [ClsSpace; ClsChar 13; ClsChar 10] |}.        (* [^\s\r\n] *)
Definition notCrLf : charClass :=
  {| negated := true; members := [ClsChar 13; ClsChar 10] |}. (* [^\r\n] *)

End Regex.
Import Regex.

(* ================================================================== *)
(** ** The patterns of [extractScanUrl] *)

(** [Full\s+Report\s+Details] *)
Definition phrase : list atom :=
  lits "Full" ++ [Plus space] ++ lits "Report" ++ [Plus space] ++ lits "Details".

(** [https?:\/\/] *)
Definition scheme : list atom :=
  lits "http" ++ [Opt 115%N] ++ lits "://".

(** /Full\s+Report\s+Details/i *)
Definition phraseRe : regex := {| head := phrase; group := [] |}.

(** /Full\s+Report\s+Details\s+(https?:\/\/[^\s\r\n]+)/i *)
Definition pattern1 : regex :=
  {| head := phrase ++ [Plus space]; group := scheme ++ [Plus notSpaceCrLf] |}.

(** /Full\s+Report\s+Details[:\s]+(https?:\/\/[^\s\r\n]+)/i *)
Definition pattern2 : regex :=
  {| head := phrase ++ [Plus colonOrSpace];
     group := scheme ++ [Plus notSpaceCrLf] |}.

(** /Full\s+Report\s+Details\s+(\S+)/i *)
Definition pattern3 : regex :=
  {| head := phrase ++ [Plus space]; group := [Plus nonSpace] |}.

(** /Full\s+Report\s+Details[:\s]+(https?:\/\/[^\r\n]+)/i *)
Definition pattern4 : regex :=
  {| head := phrase ++ [Plus colonOrSpace]; group := scheme ++ [Plus notCrLf] |}.

Definition patterns : list regex := [pattern1; pattern2; pattern3; pattern4].

(* ================================================================== *)
(** ** Values read from the sidecar file *)

(** What [JSON.parse] can return.  An object is the list of its own
    properties; a property is looked up by its first binding. *)
Inductive JsonValue :=
| JNull
| JBool (b : bool)
| JNumber (q : Q)
| JString (s : jsstring)
| JArray (elems : list JsonValue)
| JObject (props : list (jsstring * JsonValue)).

(** A value of an expression: [undefined], or a value of the document. *)
Inductive jsval :=
| Undefined
| Val (v : JsonValue).

Inductive jsError := TypeError | SyntaxError | SystemError.

(** The outcome of evaluating an expression or a statement. *)
Inductive Completion (A : Type) :=
| Normal (a : A)
| Throw (e : jsError).
Arguments Normal {A} a.
Arguments Throw {A} e.

(** The three property names [extractScanUrl] reads.  None of them names a
    built-in property of strings, arrays, numbers or booleans. *)
Inductive field := records | metadata | report.

Definition fieldName (f : field) : jsstring :=
  match f with
  | records => js "records"
  | metadata => js "metadata"
  | report => js "report"
  end.

Fixpoint lookup (k : jsstring) (props : list (jsstring * JsonValue)) : jsval :=
  match props with
  | [] => Undefined
  | (k', v) :: r => if JsString.eqb k k' then Val v else lookup k r
  end.

(** ToBoolean. *)
Definition truthy (x : jsval) : bool :=
  match x with
  | Undefined => false
  | Val JNull => false
  | Val (JBool b) => b
  | Val (JNumber q) => negb (Qnum q =? 0)%Z
  | Val (JString s) => nonEmpty s
  | Val (JArray _) => true
  | Val (JObject _) => true
  end.

(** [x.f]: reading a property of [undefined] or [null] throws. *)
Definition member (x : jsval) (f : field) : Completion jsval :=
  match x with
  | Undefined => Throw TypeError
  | Val JNull => Throw TypeError
  | Val (JObject props) => Normal (lookup (fieldName f) props)
  | Val _ => Normal Undefined
  end.

(** [x[0]]. *)
Definition index0 (x : jsval) : Completion jsval :=
  match x with
  | Undefined => Throw TypeError
  | Val JNull => Throw TypeError
  | Val (JArray (v :: _)) => Normal (Val v)
  | Val (JString (c :: _)) => Normal (Val (JString [c]))
  | Val (JObject props) => Normal (lookup (js "0") props)
  | Val _ => Normal Undefined
  end.

Definition bindC {A B} (c : Completion A) (k : A -> Completion B)
  : Completion B :=
  match c with
  | Normal a => k a
  | Throw e => Throw e
  end.

(** [a && b]: [b] is evaluated only when [a] is truthy. *)
Definition andJs (a b : Completion jsval) : Completion jsval :=
  bindC a (fun x => if truthy x then b else Normal x).

(** The four operands of the condition, each evaluated from the root. *)
Definition records_of (j : jsval) : Completion jsval := member j records.
Definition record0_of (j : jsval) : Completion jsval :=
  bindC (records_of j) index0.
Definition metadata_of (j : jsval) : Completion jsval :=
  bindC (record0_of j) (fun r => member r metadata).
Definition report_of (j : jsval) : Completion jsval :=
  bindC (metadata_of j) (fun m => member m report).

(** [url.startsWith('http://') || url.startsWith('https://')] *)
Definition isUrl (url : jsstring) : bool :=
  startsWith url (js "http://") || startsWith url (js "https://").

(* ================================================================== *)
(** ** The world the action runs in *)

(** The file at [SCA_OUTPUT_FILE] as [existsSync], [readFileSync] and
    [JSON.parse] see it.  [SCA_OUTPUT_FILE] is imported from the index module;
    it is the file the scanner is told to write with [--json=], and a file
    other than [scaResults.txt]. *)
Inductive SidecarFile :=
| Missing                  (* existsSync is false *)
| Unreadable               (* the file exists, readFileSync throws *)
| Malformed                (* JSON.parse throws *)
| Parsed (v : JsonValue).  (* JSON.parse returns v *)

(** The diagnostic lines of [extractScanUrl] and the steps of [runAction]
    that leave a trace. *)
Inductive LogLine :=
(* extractScanUrl *)
| ExtractionStarts
| OutputEmpty
| OutputLength (n : nat)
| PhraseFound (b : bool)
| FoundLine (line : jsstring)
| PatternFound (i : nat) (url : jsstring)
| PatternNotUrl (i : nat) (url : jsstring)
| TryingJson
| JsonExists
| JsonFound (url : jsstring)
| JsonNoReport
| JsonMissing
| JsonError (e : jsError)
| NoUrlFound
| ExtractionComplete
(* runAction *)
| InfoText (s : jsstring)         (* core.info of a fixed or captured text *)
| StderrLine (s : jsstring)       (* core.error of a chunk of standard error *)
| ExitCodeLogged (code : option Z)
| LengthsLogged (out err combined : nat)
| UrlExtracted (url : jsstring)
| UrlNotFound
| SampleLogged (sample : option jsstring)
| FileSaved                       (* console.log after the write *)
| FileWriteError                  (* console.error in the catch of the write *)
| ScanFailed                      (* core.setFailed *)
| IssuesGenerated                 (* run(options, core.info) *)
| StoringArtifact (file : jsstring) (* core.info before the upload *)
| ArtifactUploaded (file : jsstring) (* the awaited upload has resolved *)
| OnPullRequest                   (* core.info at the head of the decoration *)
| CommentPosted (withOutput : option jsstring)
| CommentFailed                   (* core.info(error) in the catch around it *)
| RunFailed (e : jsError)
| Finished.

Record World := {
  sidecar : SidecarFile;          (* the file at SCA_OUTPUT_FILE *)
  resultFile : option jsstring;   (* the content of scaResults.txt *)
  resultWritable : bool;          (* whether scaResults.txt can be written *)
  scanUrl : option jsstring;      (* the scan-url output of the action *)
  failed : bool;                  (* whether core.setFailed was called *)
  log : list LogLine
}.

Definition M (A : Type) : Type := World -> Completion A * World.

Definition ret {A} (a : A) : M A := fun w => (Normal a, w).

Definition bind {A B} (m : M A) (k : A -> M B) : M B :=
  fun w => match m w with
           | (Normal a, w') => k a w'
           | (Throw e, w') => (Throw e, w')
           end.

Definition throw {A} (e : jsError) : M A := fun w => (Throw e, w).

Definition tryCatch {A} (m : M A) (handler : jsError -> M A) : M A :=
  fun w => match m w with
           | (Normal a, w') => (Normal a, w')
           | (Throw e, w') => handler e w'
           end.

Definition lift {A} (c : Completion A) : M A := fun w => (c, w).

Notation "x <- m ;; k" := (bind m (fun x => k))
  (at level 61, m at next level, right associativity).
Notation "m ;; k" := (bind m (fun _ => k))
  (at level 61, right associativity).

Definition appendLog (w : World) (ls : list LogLine) : World :=
  {| sidecar := sidecar w; resultFile := resultFile w;
     resultWritable := resultWritable w; scanUrl := scanUrl w;
     failed := failed w; log := log w ++ ls |}.

(** [core.info] and its siblings. *)
Definition info (l : LogLine) : M unit := fun w => (Normal tt, appendLog w [l]).

Definition existsSidecar : M bool :=
  fun w => (Normal (match sidecar w with Missing => false | _ => true end), w).

(** [JSON.parse(readFileSync(SCA_OUTPUT_FILE).toString('utf-8'))] *)
Definition readSidecarJson : M JsonValue :=
  fun w => match sidecar w with
           | Parsed v => (Normal v, w)
           | Malformed => (Throw SyntaxError, w)
           | Unreadable | Missing => (Throw SystemError, w)
           end.

(* ================================================================== *)
(** ** [extractScanUrl] *)

(** The loop over the patterns; [i] is the loop index. *)
Fixpoint scanPatterns (output : jsstring) (i : nat) (ps : list regex)
  : M (option jsstring) :=
  match ps with
  | [] => ret None
  | pattern :: rest =>
      match exec pattern output with
      | Some cap =>
          if nonEmpty cap then
            let url := trim cap in
            if isUrl url then
              info (PatternFound (i + 1) url) ;; ret (Some url)
            else
              info (PatternNotUrl (i + 1) url) ;;
              scanPatterns output (S i) rest
          else scanPatterns output (S i) rest
      | None => scanPatterns output (S i) rest
      end
  end.

(** The body of the [try] block. *)
Definition jsonFallback : M (option jsstring) :=
  present <- existsSidecar ;;
  if present then
    info JsonExists ;;
    v <- readSidecarJson ;;
    let scaResJson := Val v in
    cond <- lift (andJs (records_of scaResJson)
                 (andJs (record0_of scaResJson)
                 (andJs (metadata_of scaResJson)
                        (report_of scaResJson)))) ;;
    if truthy cond then
      url <- lift (report_of scaResJson) ;;
      match url with
      | Val (JString s) =>
          if isUrl s then info (JsonFound s) ;; ret (Some s) else ret None
      | _ => throw TypeError   (* url.startsWith is not a function *)
      end
    else info JsonNoReport ;; ret None
  else info JsonMissing ;; ret None.

Definition extractScanUrl (output : jsstring) : M (option jsstring) :=
  info ExtractionStarts ;;
  if negb (nonEmpty output) then
    info OutputEmpty ;; ret None
  else
    info (OutputLength (List.length output)) ;;
    let hasFullReport := test phraseRe output in
    info (PhraseFound hasFullReport) ;;
    (if hasFullReport then
       let lines := split 10%N output in
       match find (test phraseRe) lines with
       | Some fullReportLine =>
           if nonEmpty fullReportLine
           then info (FoundLine (trim fullReportLine)) else ret tt
       | None => ret tt
       end
     else ret tt) ;;
    found <- scanPatterns output 0 patterns ;;
    match found with
    | Some url => ret (Some url)
    | None =>
        info TryingJson ;;
        fromJson <- tryCatch jsonFallback
                      (fun e => info (JsonError e) ;; ret None) ;;
        match fromJson with
        | Some url => ret (Some url)
        | None => info NoUrlFound ;; info ExtractionComplete ;; ret None
        end
    end.

(* ================================================================== *)
(** ** [cleanCollectors] and the collector flags *)

Definition collectors : list jsstring :=
  map js ["maven"; "gradle"; "ant"; "jar"; "sbt"; "glide"; "go get"; "go mod";
          "godep"; "dep"; "govendor"; "trash"; "pip"; "pipenv"; "bower";
          "yarn"; "npm"; "cocoapods"; "gem"; "composer"; "makefile"; "dll";
          "msbuilddotnet"]%string.

Section Collectors.

(** [String.prototype.toLowerCase], a built-in of the host language: the
    development fixes nothing about it but its value on the empty string. *)
Variable toLowerCase : jsstring -> jsstring.
Hypothesis toLowerCase_empty : toLowerCase [] = [].

(** One turn of the [for ... of] loop. *)
Definition cleanStep (allowed : list jsstring) (input : jsstring)
  : list jsstring :=
  if nonEmpty input && includes collectors (toLowerCase (trim input))
  then allowed ++ [toLowerCase (trim input)]
  else allowed.

Definition cleanCollectors (inputArr : list jsstring) : list jsstring :=
  fold_left cleanStep inputArr [].

(** [--skip-collectors ...] and [--scan-collectors ...] as [runAction]
    builds them from the two options. *)
Definition collectorsAttr (flag : string) (option_ : list jsstring)
  : jsstring :=
  let cleaned := cleanCollectors option_ in
  if (0 <? List.length cleaned)%nat
  then js flag ++ js " " ++ join cleaned ++ js " "
  else [].

Definition skipCollectorsAttr := collectorsAttr "--skip-collectors".
Definition scanCollectorsAttr := collectorsAttr "--scan-collectors".

End Collectors.

(** Lower-casing of the ASCII letters, which is what the built-in does on
    ASCII text. *)
Definition asciiLowerCase (s : jsstring) : jsstring :=
  map (fun c => if (65 <=? c)%N && (c <=? 90)%N then (c + 32)%N else c) s.

(* ================================================================== *)
(** ** [runAction]

    The scanner is an external process.  What it does is given as a
    [ProcessRun]: the chunks it writes, in order, its exit code, what it
    leaves at [SCA_OUTPUT_FILE] when the command carries [--json=], and what
    [execSync] throws if the output goes over its [maxBuffer].  The command
    line only reaches the scanner, so it is not part of the model.  The
    artifact service and the comment service are external too: whether their
    calls succeed is given in the [Env].  A run asks for one upload and at
    most one comment, so one answer each is all it needs; the answer may
    well depend on what the run did before, such as a result file that is
    not there.  The issue generation [run(options, core.info)] is recorded
    as a log line.  Lines printed only under [core.isDebug()], and the line
    that names the version of the artifact client, are left out. *)

Inductive Chunk :=
| StdoutData (d : jsstring)
| StderrData (d : jsstring).

(** The error [execSync] throws when the command does not exit with 0, or
    when its output goes over [maxBuffer]. *)
Record ExecError := {
  status : option Z;
  stdout : jsstring;
  stderr : jsstring
}.

Record ProcessRun := {
  chunks : list Chunk;
  exitCode : option Z;    (* null when the process was killed by a signal *)
  (* the state in which the scanner leaves the file at SCA_OUTPUT_FILE when
     it is run with --json=; None when it leaves the file as it was *)
  jsonReport : option SidecarFile;
  (* under execSync only: when the output goes over maxBuffer (10 MB, lines
     143 and 247) the call throws, whatever the exit code would have been,
     and this is the error it throws: the output as far as it was captured
     and the status of a child that was killed or had exited by then; None
     when the output fits *)
  bufferExceeded : option ExecError
}.

Definition stdoutText (cs : list Chunk) : jsstring :=
  flat_map (fun c => match c with StdoutData d => d | StderrData _ => [] end)
           cs.

Definition stderrText (cs : list Chunk) : jsstring :=
  flat_map (fun c => match c with StderrData d => d | StdoutData _ => [] end)
           cs.

Definition stdoutOf (p : ProcessRun) : jsstring := stdoutText (chunks p).

Definition stderrOf (p : ProcessRun) : jsstring := stderrText (chunks p).

(** [execSync(command, {encoding: 'utf-8', maxBuffer: 1024 * 1024 * 10})]:
    it returns standard output when the command exits with 0 and the output
    stays under the ceiling, and throws otherwise. *)
Definition execSync (p : ProcessRun) : jsstring + ExecError :=
  match bufferExceeded p with
  | Some error => inr error
  | None =>
      match exitCode p with
      | Some 0%Z => inl (stdoutOf p)
      | code =>
          inr {| status := code; stdout := stdoutOf p; stderr := stderrOf p |}
      end
  end.

Record Options := {
  createIssues : bool;
  breakBuildOnPolicyFindings : jsstring
}.

Record Env := {
  runnerOS : jsstring;   (* process.env.RUNNER_OS *)
  isPR : bool;           (* GITHUB_REF contains "pull" past its first unit *)
  repository : option jsstring;   (* process.env.GITHUB_REPOSITORY *)
  uploadOk : bool;       (* whether the awaited uploadArtifact resolves *)
  commentOk : bool       (* whether the awaited createComment resolves *)
}.

(** [runnerOS == 'Windows'] *)
Definition isWindows (env : Env) : bool :=
  JsString.eqb (runnerOS env) (js "Windows").

Definition setScanUrl (url : jsstring) : M unit :=
  fun w => (Normal tt,
            {| sidecar := sidecar w; resultFile := resultFile w;
               resultWritable := resultWritable w; scanUrl := Some url;
               failed := failed w; log := log w |}).

Definition setFailed : M unit :=
  fun w => (Normal tt,
            {| sidecar := sidecar w; resultFile := resultFile w;
               resultWritable := resultWritable w; scanUrl := scanUrl w;
               failed := true; log := log w ++ [ScanFailed] |}).

(** [writeFileSync('scaResults.txt', data)] *)
Definition writeResultFile (data : jsstring) : M unit :=
  fun w => if resultWritable w
           then (Normal tt,
                 {| sidecar := sidecar w; resultFile := Some data;
                    resultWritable := resultWritable w; scanUrl := scanUrl w;
                    failed := failed w; log := log w |})
           else (Throw SystemError, w).

Definition readResultFile : M (option jsstring) :=
  fun w => (Normal (resultFile w), w).

Definition when (b : bool) (m : M unit) : M unit := if b then m else ret tt.

(** [if (scanUrl) { yes } else { no }] *)
Definition ifUrl (scanUrl : option jsstring) (yes : jsstring -> M unit)
           (no : M unit) : M unit :=
  match scanUrl with
  | Some url => if nonEmpty url then yes url else no
  | None => no
  end.

(** [status != null && status > 0 && breakBuildOnPolicyFindings == 'true'] *)
Definition positive (code : option Z) : bool :=
  match code with Some c => (0 <? c)%Z | None => false end.

Definition breaksBuild (options : Options) (code : option Z) : bool :=
  positive code &&
  JsString.eqb (breakBuildOnPolicyFindings options) (js "true").

(** The [try { writeFileSync ... } catch (err) { console.error ... }]. *)
Definition saveResultFile (data : jsstring) : M unit :=
  tryCatch (writeResultFile data ;; info FileSaved)
           (fun _ => info FileWriteError).

(** The awaited [artifactClient.uploadArtifact], which no [try] of its own
    guards: a rejection leaves the statements after it undone.  The service
    is asked for the file named, whether or not the file is there. *)
Definition uploadArtifact (env : Env) (file : string) : M unit :=
  info (StoringArtifact (js file)) ;;
  if uploadOk env then info (ArtifactUploaded (js file))
  else throw SystemError.

(** The pull-request decoration.  [repository.split("/")] is outside the
    [try] around [createComment] and throws when [GITHUB_REPOSITORY] is not
    set; a failure of [createComment] is caught and logged. *)
Definition decoratePR (env : Env) (body : option jsstring) : M unit :=
  when (isPR env)
    (info OnPullRequest ;;
     match repository env with
     | None => throw TypeError
     | Some _ =>
         if commentOk env then info (CommentPosted body)
         else info CommentFailed
     end).

(** The scanner has run: with [createIssues] the command carried
    [--json=SCA_OUTPUT_FILE] (line 133) and the file is as the scanner left
    it. *)
Definition scannerWrites (options : Options) (p : ProcessRun) : M unit :=
  fun w =>
    (Normal tt,
     match createIssues options, jsonReport p with
     | true, Some scanned =>
         {| sidecar := scanned; resultFile := resultFile w;
            resultWritable := resultWritable w; scanUrl := scanUrl w;
            failed := failed w; log := log w |}
     | _, _ => w
     end).

(** [text.indexOf(needle)], [None] standing for -1. *)
Fixpoint indexOf (needle text : jsstring) : option nat :=
  if startsWith text needle then Some 0
  else match text with
       | [] => None
       | _ :: r => option_map S (indexOf needle r)
       end.

(** The sample around "Full Report" that the last branch logs when no URL
    was found. *)
Definition logSample (text : jsstring) : M unit :=
  match indexOf (js "Full Report") text with
  | Some i =>
      let from := (i - 50) in
      let to := Nat.min (List.length text) (i + 200) in
      info (SampleLogged (Some (firstn (to - from) (skipn from text))))
  | None => info (SampleLogged None)
  end.

(** 'Create issue "true" - on close' *)
Definition createIssueOnClose : jsstring :=
  js "Create issue " ++ [34%N] ++ js "true" ++ [34%N] ++ js " - on close".

(** The [summary_message] of the Windows branch. *)
Definition summaryMessage (env : Env) : jsstring :=
  if isPR env
  then js "Veracode SCA Scan finished. Please review created and linked issues"
  else js "Veracode SCA Scan finished. Please review created issues".

(** Windows, [createIssues] set: lines 139-238. *)
Definition runWindowsIssues (env : Env) (options : Options) (p : ProcessRun)
  : M unit :=
  info (InfoText (js "Starting the scan")) ;;
  scannerWrites options p ;;
  match execSync p with
  | inl output =>
      info (InfoText createIssueOnClose) ;;
      scanUrl <- extractScanUrl output ;;
      ifUrl scanUrl
        (fun url => setScanUrl url ;; info (UrlExtracted url))
        (info UrlNotFound)
  | inr error =>
      (* [execSync] threw before the assignment: [output] is still '' *)
      let output : jsstring := [] in
      when (breaksBuild options (status error))
           (info (InfoText output) ;; setFailed) ;;
      scanUrl <- extractScanUrl output ;;
      ifUrl scanUrl
        (fun url => setScanUrl url ;; info (UrlExtracted url))
        (ret tt)
  end ;;
  decoratePR env None ;;
  info IssuesGenerated ;;
  info (InfoText (summaryMessage env)) ;;
  uploadArtifact env "scaResults.json" ;;
  info Finished.

(** Windows, [createIssues] not set: lines 240-385. *)
Definition runWindowsText (env : Env) (options : Options) (p : ProcessRun)
  : M unit :=
  scannerWrites options p ;;
  output <-
    match execSync p with
    | inl output =>
        info (InfoText output) ;;
        scanUrl <- extractScanUrl output ;;
        ifUrl scanUrl
          (fun url => setScanUrl url ;; info (UrlExtracted url))
          (info UrlNotFound) ;;
        ret output
    | inr error =>
        let output := if nonEmpty (stdout error) then stdout error else [] in
        let stderrOutput :=
          if nonEmpty (stderr error) then stderr error else [] in
        when (breaksBuild options (status error)) setFailed ;;
        let combinedOutput := output ++ stderrOutput in
        scanUrl <- extractScanUrl combinedOutput ;;
        ifUrl scanUrl
          (fun url => setScanUrl url ;; info (UrlExtracted url))
          (ret tt) ;;
        ret output
    end ;;
  saveResultFile output ;;
  uploadArtifact env "scaResults.txt" ;;
  decoratePR env (Some output) ;;
  info Finished.

(** The [data] handlers of the two streams: each appends to its own
    accumulator.  [echo] tells whether standard output is also logged. *)
Fixpoint collect (echo : bool) (cs : list Chunk) (output stderrOutput : jsstring)
  : M (jsstring * jsstring) :=
  match cs with
  | [] => ret (output, stderrOutput)
  | StdoutData d :: r =>
      when echo (info (InfoText d)) ;;
      collect echo r (output ++ d) stderrOutput
  | StderrData d :: r =>
      info (StderrLine d) ;;
      collect echo r output (stderrOutput ++ d)
  end.

(** Other systems, [createIssues] set: lines 392-508. *)
Definition runShellIssues (env : Env) (options : Options) (p : ProcessRun)
  : M unit :=
  info (InfoText (js "Starting the scan")) ;;
  scannerWrites options p ;;
  acc <- collect false (chunks p) [] [] ;;
  let '(output, stderrOutput) := acc in
  let code := exitCode p in
  (* the [close] handler *)
  info (InfoText createIssueOnClose) ;;
  let combinedOutput := output ++ stderrOutput in
  scanUrl <- extractScanUrl combinedOutput ;;
  ifUrl scanUrl
    (fun url => setScanUrl url ;; info (UrlExtracted url))
    (info UrlNotFound) ;;
  decoratePR env None ;;
  info IssuesGenerated ;;
  info (ExitCodeLogged code) ;;
  when (positive code) setFailed ;;
  uploadArtifact env "scaResults.json" ;;
  info Finished.

(** Other systems, [createIssues] not set: lines 512-680. *)
Definition runShellText (env : Env) (options : Options) (p : ProcessRun)
  : M unit :=
  scannerWrites options p ;;
  acc <- collect true (chunks p) [] [] ;;
  let '(output, stderrOutput) := acc in
  let code := exitCode p in
  (* the [close] handler *)
  info (ExitCodeLogged code) ;;
  let combinedOutput := output ++ stderrOutput in
  info (LengthsLogged (List.length output) (List.length stderrOutput)
                      (List.length combinedOutput)) ;;
  scanUrl <- extractScanUrl combinedOutput ;;
  ifUrl scanUrl
    (fun url => setScanUrl url ;; info (UrlExtracted url))
    (info UrlNotFound ;;
     info (LengthsLogged (List.length output) (List.length stderrOutput)
                         (List.length combinedOutput)) ;;
     logSample combinedOutput) ;;
  saveResultFile combinedOutput ;;
  (* the file is read back and preferred when it is the longer text *)
  fileContent <- readResultFile ;;
  let fileOutput :=
    match fileContent with
    | Some content =>
        if nonEmpty content &&
           (List.length combinedOutput <? List.length content)%nat
        then content else combinedOutput
    | None => combinedOutput
    end in
  when (negb (match scanUrl with Some url => nonEmpty url | None => false end))
       (scanUrlFromFile <- extractScanUrl fileOutput ;;
        ifUrl scanUrlFromFile
          (fun url => setScanUrl url ;; info (UrlExtracted url))
          (ret tt)) ;;
  uploadArtifact env "scaResults.txt" ;;
  decoratePR env (Some output) ;;
  when (breaksBuild options code) setFailed ;;
  info Finished.

(** The [try] of [runAction] holds the whole Windows branches, awaits
    included.  On other systems it holds the [spawn] and the registration of
    the handlers only: the [close] handler runs once the [try] has been
    left, and what it throws nothing catches. *)
Definition runAction (env : Env) (options : Options) (p : ProcessRun)
  : M unit :=
  if isWindows env then
    tryCatch
      (info (InfoText (js "Start command")) ;;
       if createIssues options then runWindowsIssues env options p
       else runWindowsText env options p)
      (fun e => info (RunFailed e))
  else
    tryCatch (info (InfoText (js "Start command")))
             (fun e => info (RunFailed e)) ;;
    if createIssues options then runShellIssues env options p
    else runShellText env options p.

(* ================================================================== *)
(** ** Words used to state the properties *)

(** A world with the given sidecar file and nothing else set. *)
Definition world0 (sc : SidecarFile) : World :=
  {| sidecar := sc; resultFile := None; resultWritable := true;
     scanUrl := None; failed := false; log := [] |}.

Definition withSidecar (sc : SidecarFile) (w : World) : World :=
  {| sidecar := sc; resultFile := resultFile w;
     resultWritable := resultWritable w; scanUrl := scanUrl w;
     failed := failed w; log := log w |}.

(** [w] spells [word] in some letter case. *)
Fixpoint spelled (word w : jsstring) : bool :=
  match word, w with
  | [], [] => true
  | c :: word', x :: w' => sameChar c x && spelled word' w'
  | _, _ => false
  end.

(** A non-empty run of whitespace. *)
Definition blank (g : jsstring) : bool :=
  nonEmpty g && forallb isWhiteSpace g.

Definition hasBody (u p : jsstring) : bool :=
  startsWith u p && (List.length p <? List.length u)%nat.

(** A URL token: no whitespace inside, one of the two schemes in lower case,
    and something after it. *)
Definition urlToken (u : jsstring) : bool :=
  forallb (fun x => negb (isWhiteSpace x)) u &&
  (hasBody u (js "http://") || hasBody u (js "https://")).

(** The token ends where [post] starts. *)
Definition tokenEnds (post : jsstring) : bool :=
  match post with
  | [] => true
  | x :: _ => isWhiteSpace x
  end.

(** A report line: the phrase in some letter case with blank gaps, a blank,
    and a URL token that ends where [post] starts. *)
Definition isReportLine (w1 g1 w2 g2 w3 g url post : jsstring) : bool :=
  spelled (js "Full") w1 && blank g1 && spelled (js "Report") w2 &&
  blank g2 && spelled (js "Details") w3 && blank g && urlToken url &&
  tokenEnds post.

(** The text with the report line in it. *)
Definition reportLine (pre w1 g1 w2 g2 w3 g url post : jsstring) : jsstring :=
  pre ++ w1 ++ g1 ++ w2 ++ g2 ++ w3 ++ g ++ url ++ post.

(** No match of [r] starts inside [pre] in the text [pre ++ rest]. *)
Fixpoint noMatchBefore (r : regex) (pre rest : jsstring) : bool :=
  match pre with
  | [] => true
  | _ :: pre' =>
      match matchHere r (pre ++ rest) with
      | Some _ => false
      | None => noMatchBefore r pre' rest
      end
  end.

(** The value of the pattern loop. *)
Fixpoint firstUrl (ps : list regex) (output : jsstring) : option jsstring :=
  match ps with
  | [] => None
  | pattern :: rest =>
      match exec pattern output with
      | Some cap =>
          if nonEmpty cap && isUrl (trim cap) then Some (trim cap)
          else firstUrl rest output
      | None => firstUrl rest output
      end
  end.

(** The value of the sidecar fallback, the [catch] included. *)
Definition fallbackUrl (sc : SidecarFile) : option jsstring :=
  match sc with
  | Parsed v =>
      match andJs (records_of (Val v))
              (andJs (record0_of (Val v))
                 (andJs (metadata_of (Val v)) (report_of (Val v)))) with
      | Normal cond =>
          if truthy cond then
            match report_of (Val v) with
            | Normal (Val (JString s)) => if isUrl s then Some s else None
            | _ => None
            end
          else None
      | Throw _ => None
      end
  | _ => None
  end.

Definition urlFor (sc : SidecarFile) (output : jsstring) : option jsstring :=
  if nonEmpty output then
    match firstUrl patterns output with
    | Some url => Some url
    | None => fallbackUrl sc
    end
  else None.

(** The sidecar holds a report URL: [records[0].metadata.report] is a string
    that starts with one of the two schemes. *)
Definition sidecarReport (sc : SidecarFile) (url : jsstring) : Prop :=
  exists v, sc = Parsed v /\
            report_of (Val v) = Normal (Val (JString url)) /\
            isUrl url = true.

(** The sidecar of scenario D:
    {"records":[{"metadata":{"report":"http://x.test/y"}}]} *)
Definition scenarioD : SidecarFile :=
  Parsed (JObject [(js "records",
    JArray [JObject [(js "metadata",
      JObject [(js "report", JString (js "http://x.test/y"))])]])]).

(** The text [cleanCollectors] compares with the allowlist. *)
Definition normalized (toLowerCase : jsstring -> jsstring) (input : jsstring)
  : jsstring :=
  toLowerCase (trim input).

(** The next character, if any, is outside the class: a greedy run of the
    class ends here. *)
Definition stops (cls : charClass) (s : jsstring) : bool :=
  match s with
  | [] => true
  | x :: _ => negb (classMatches cls x)
  end.

(** [m] returns [a] and only writes to the log. *)
Definition logsOnly {A} (m : M A) (w : World) (a : A) : Prop :=
  exists ls, m w = (Normal a, appendLog w ls).

(** [m], run from [w], ends in an outcome [r] and a world [w'], having
    added the lines [ls] to the log, and these satisfy [Q]. *)
Definition runs {A} (m : M A) (w : World)
           (Q : Completion A -> World -> list LogLine -> Prop) : Prop :=
  exists r w' ls, m w = (r, w') /\ log w' = log w ++ ls /\ Q r w' ls.

(** In the log lines [ls], [x] is there and what comes after it satisfies
    [P]. *)
Definition follows (x : LogLine) (P : list LogLine -> Prop)
           (ls : list LogLine) : Prop :=
  exists before after, ls = before ++ x :: after /\ P after.

(** The pull-request decoration can be gone through. *)
Definition prOk (env : Env) : bool :=
  negb (isPR env) ||
  match repository env with Some _ => true | None => false end.

(** The first step after the scan that fails, if one does: the upload when
    the service rejects it, the decoration when the repository is not named.
    With [createIssues] the decoration comes before the upload, without it
    after. *)
Definition failure (env : Env) (options : Options) : option jsError :=
  if createIssues options then
    if negb (prOk env) then Some TypeError
    else if negb (uploadOk env) then Some SystemError
    else None
  else
    if negb (uploadOk env) then Some SystemError
    else if negb (prOk env) then Some TypeError
    else None.

(** How a run ends: on Windows the [catch] of [runAction] takes the
    failure. *)
Definition completionOutcome (env : Env) (options : Options)
  : Completion unit :=
  match failure env options with
  | Some e => if isWindows env then Normal tt else Throw e
  | None => Normal tt
  end.

(** The line that tells how the write of the result file went. *)
Definition saveLine (w : World) : LogLine :=
  if resultWritable w then FileSaved else FileWriteError.

(** The exit status [execSync] reports: 0 when it returns. *)
Definition execStatus (p : ProcessRun) : option Z :=
  match execSync p with
  | inl _ => Some 0%Z
  | inr error => status error
  end.

(** The world once the scanner has run. *)
Definition afterScanner (options : Options) (p : ProcessRun) (w : World)
  : World :=
  snd (scannerWrites options p w).

(** The world once [data] is in the result file. *)
Definition written (data : jsstring) (w : World) : World :=
  {| sidecar := sidecar w; resultFile := Some data;
     resultWritable := resultWritable w; scanUrl := scanUrl w;
     failed := failed w; log := log w |}.

(** Scenario E: the scanner prints a report line to standard error and exits
    with status 2. *)
Definition scenarioE : ProcessRun :=
  {| chunks := [StdoutData (js "Scanning" ++ [10%N]);
                StderrData
                  (js "Full Report Details https://scan.example.com/r/123"
                   ++ [10%N])];
     exitCode := Some 2%Z; jsonReport := None; bufferExceeded := None |}.

Definition onWindows : Env :=
  {| runnerOS := js "Windows"; isPR := false;
     repository := Some (js "owner/repo"); uploadOk := true;
     commentOk := true |}.
Definition onLinux : Env :=
  {| runnerOS := js "Linux"; isPR := false;
     repository := Some (js "owner/repo"); uploadOk := true;
     commentOk := true |}.
Definition withIssues : Options :=
  {| createIssues := true; breakBuildOnPolicyFindings := js "false" |}.
Definition withoutIssues : Options :=
  {| createIssues := false; breakBuildOnPolicyFindings := js "false" |}.


(** No allowlist name has whitespace at either end or a comma inside. *)
Definition plainName (name : jsstring) : bool :=
  JsString.eqb (trim name) name && nonEmpty name &&
  forallb (fun c => negb (c =? 44)%N) name.

(** A run of colons and whitespace, at least one character long. *)
Definition separator (sep : jsstring) : bool :=
  nonEmpty sep && forallb (fun x => (58 =? x)%N || isWhiteSpace x) sep.

(** What is left of a line: no carriage return and no line feed. *)
Definition sameLine (rest : jsstring) : bool :=
  forallb (fun x => negb ((13 =? x)%N || (10 =? x)%N)) rest.

(** The line ends where [post] starts. *)
Definition lineEnds (post : jsstring) : bool :=
  match post with
  | [] => true
  | x :: _ => (13 =? x)%N || (10 =? x)%N
  end.

(** The phrase in some letter case, with blank gaps between the words. *)
Definition isPhraseText (w1 g1 w2 g2 w3 : jsstring) : bool :=
  spelled (js "Full") w1 && blank g1 && spelled (js "Report") w2 &&
  blank g2 && spelled (js "Details") w3.

(** One of the two schemes, in lower case. *)
Definition isScheme (sch : jsstring) : bool :=
  JsString.eqb sch (js "http://") || JsString.eqb sch (js "https://").

(** What a call of the extractor on [text] makes of the scan-url output:
    the URL it finds, or the output as it was. *)
Definition urlAfter (text : jsstring) (w : World) (before : option jsstring)
  : option jsstring :=
  match fst (extractScanUrl text w) with
  | Normal (Some url) => Some url
  | _ => before
  end.

(** The text the last branch extracts from a second time. *)
Definition fileOutputOf (combinedOutput : jsstring) (w : World) : jsstring :=
  match (if resultWritable w then Some combinedOutput else resultFile w) with
  | Some content =>
      if nonEmpty content &&
         (List.length combinedOutput <? List.length content)%nat
      then content else combinedOutput
  | None => combinedOutput
  end.

(** The scan-url output a run ends with, branch by branch. *)
Definition scanUrlOutcome (env : Env) (options : Options) (p : ProcessRun)
           (w : World) : option jsstring :=
  let combined := stdoutOf p ++ stderrOf p in
  let w1 := afterScanner options p w in
  if isWindows env then
    match execSync p with
    | inl output => urlAfter output w1 (scanUrl w)
    | inr error =>
        if createIssues options then scanUrl w
        else urlAfter (stdout error ++ stderr error) w1 (scanUrl w)
    end
  else if createIssues options then urlAfter combined w1 (scanUrl w)
  else match fst (extractScanUrl combined w1) with
       | Normal (Some url) => Some url
       | _ => urlAfter (fileOutputOf combined w) w1 (scanUrl w)
       end.

(** The failure status a run ends with.  On Windows the status is reported
    before the upload; on other systems after the steps that can throw. *)
Definition failedOutcome (env : Env) (options : Options) (p : ProcessRun)
           (w : World) : bool :=
  failed w ||
  (if isWindows env then breaksBuild options (execStatus p)
   else if createIssues options then prOk env && positive (exitCode p)
   else uploadOk env && prOk env && breaksBuild options (exitCode p)).

(** The result file a run ends with. *)
Definition resultFileOutcome (env : Env) (options : Options) (p : ProcessRun)
           (w : World) : option jsstring :=
  if createIssues options || negb (resultWritable w) then resultFile w
  else Some (if isWindows env
             then match execSync p with
                  | inl output => output
                  | inr error => stdout error
                  end
             else stdoutOf p ++ stderrOf p).


(** Scenario E with the same two streams cut and interleaved differently. *)
Definition scenarioE_rechunked : ProcessRun :=
  {| chunks := [StderrData (js "Full Report ");
                StdoutData (js "Scan");
                StderrData (js "Details https://scan.example.com/r/123"
                            ++ [10%N]);
                StdoutData (js "ning" ++ [10%N])];
     exitCode := Some 2%Z; jsonReport := None; bufferExceeded := None |}.

(** A scanner that prints no report line. *)
Definition silentRun : ProcessRun :=
  {| chunks := [StdoutData (js "Scanning" ++ [10%N])];
     exitCode := Some 0%Z; jsonReport := None; bufferExceeded := None |}.

(** The same scanner, leaving the report of scenario D where the command
    tells it to. *)
Definition reportingRun : ProcessRun :=
  {| chunks := [StdoutData (js "Scanning" ++ [10%N])];
     exitCode := Some 0%Z; jsonReport := Some scenarioD;
     bufferExceeded := None |}.




(** A world whose result file is left from an earlier run and cannot be
    written. *)
Definition staleWorld : World :=
  {| sidecar := Missing;
     resultFile := Some (js "Full Report Details https://old.example/r/1"
                         ++ [10%N]);
     resultWritable := false; scanUrl := None; failed := false; log := [] |}.

(* ================================================================== *)
(** ** Strings *)

Lemma eqb_eq (s t : jsstring) : JsString.eqb s t = true <-> s = t.
Proof.
  revert t; induction s as [|a s IH]; destruct t as [|b t]; simpl;
    try (split; congruence).
  rewrite andb_true_iff, N.eqb_eq, IH. split.
  - intros [-> ->]; reflexivity.
  - intros H; injection H; auto.
Qed.

Lemma includes_In (arr : list jsstring) (x : jsstring) :
  includes arr x = true <-> In x arr.
Proof.
  unfold includes. rewrite existsb_exists. split.
  - intros [y [Hy He]]. apply eqb_eq in He. subst. assumption.
  - intros H. exists x. split; [assumption | apply eqb_eq; reflexivity].
Qed.

Lemma startsWith_app (s p : jsstring) :
  startsWith s p = true -> exists r, s = p ++ r.
Proof.
  revert s; induction p as [|a p IH]; intros s H.
  - exists s. reflexivity.
  - destruct s as [|b s]; simpl in H; [discriminate|].
    apply andb_true_iff in H. destruct H as [Hab H].
    apply N.eqb_eq in Hab. subst b.
    destruct (IH _ H) as [r ->]. exists r. reflexivity.
Qed.

Lemma startsWith_prefix (p r : jsstring) : startsWith (p ++ r) p = true.
Proof.
  induction p as [|a p IH]; simpl; [reflexivity|].
  rewrite N.eqb_refl. exact IH.
Qed.

Lemma trimStart_head (x : jschar) (s : jsstring) :
  isWhiteSpace x = false -> trimStart (x :: s) = x :: s.
Proof. intros H. simpl. rewrite H. reflexivity. Qed.

(** Trimming the front of [a ++ b] keeps [b] whole when [b] starts with a
    character that is not whitespace. *)
Lemma trimStart_keeps (a b : jsstring) (x : jschar) :
  isWhiteSpace x = false ->
  exists a', trimStart (a ++ x :: b) = a' ++ x :: b.
Proof.
  intros Hx. induction a as [|c a IH].
  - exists []. simpl. rewrite Hx. reflexivity.
  - simpl. destruct (isWhiteSpace c).
    + exact IH.
    + exists (c :: a). reflexivity.
Qed.

Lemma trimEnd_keeps (a b : jsstring) (x : jschar) :
  isWhiteSpace x = false ->
  exists b', trimEnd (a ++ x :: b) = a ++ x :: b'.
Proof.
  intros Hx. unfold trimEnd.
  rewrite rev_app_distr. simpl. rewrite <- app_assoc. simpl.
  destruct (trimStart_keeps (rev b) (rev a) x Hx) as [b' Hb'].
  rewrite Hb'. exists (rev b').
  rewrite rev_app_distr. simpl. rewrite rev_involutive, <- app_assoc.
  reflexivity.
Qed.

(** A string without whitespace is its own trim. *)
Lemma trim_solid (s : jsstring) :
  forallb (fun x => negb (isWhiteSpace x)) s = true -> trim s = s.
Proof.
  intros H. unfold trim.
  assert (Hs : trimStart s = s).
  { destruct s as [|x s]; [reflexivity|]. simpl in H.
    apply andb_true_iff in H. destruct H as [Hx _].
    apply negb_true_iff in Hx. apply trimStart_head; assumption. }
  rewrite Hs. unfold trimEnd.
  assert (Hr : trimStart (rev s) = rev s).
  { destruct (rev s) as [|x r] eqn:E; [reflexivity|].
    assert (Hin : In x s) by (apply in_rev; rewrite E; left; reflexivity).
    rewrite forallb_forall in H. specialize (H _ Hin).
    apply negb_true_iff in H. apply trimStart_head; assumption. }
  rewrite Hr. apply rev_involutive.
Qed.

(** Trimming keeps a prefix that has no whitespace in it. *)
Lemma trim_keeps_prefix (p r : jsstring) :
  p <> [] -> forallb (fun x => negb (isWhiteSpace x)) p = true ->
  startsWith (trim (p ++ r)) p = true.
Proof.
  intros Hne Hp. unfold trim.
  destruct p as [|x p]; [congruence|]. simpl in Hp.
  apply andb_true_iff in Hp. destruct Hp as [Hx Hp].
  apply negb_true_iff in Hx.
  change ((x :: p) ++ r) with (x :: (p ++ r)).
  rewrite trimStart_head by assumption.
  destruct (rev (x :: p)) as [|y q] eqn:E.
  { apply (f_equal (@List.length _)) in E. rewrite length_rev in E.
    simpl in E. discriminate. }
  assert (Hy : isWhiteSpace y = false).
  { assert (Hin : In y (x :: p)) by (apply in_rev; rewrite E; left; reflexivity).
    destruct Hin as [<- | Hin]; [assumption|].
    rewrite forallb_forall in Hp. apply negb_true_iff. apply Hp; assumption. }
  assert (Hxp : x :: p = rev q ++ [y]).
  { rewrite <- (rev_involutive (x :: p)), E. reflexivity. }
  change (x :: p ++ r) with ((x :: p) ++ r).
  rewrite Hxp, <- app_assoc. simpl.
  destruct (trimEnd_keeps (rev q) r y Hy) as [b' ->].
  replace (rev q ++ y :: b') with ((rev q ++ [y]) ++ b')
    by (rewrite <- app_assoc; reflexivity).
  apply startsWith_prefix.
Qed.

Lemma isUrl_trim (s : jsstring) : isUrl s = true -> isUrl (trim s) = true.
Proof.
  unfold isUrl. intros H. apply orb_true_iff in H. apply orb_true_iff.
  destruct H as [H | H]; [left | right];
    apply startsWith_app in H; destruct H as [r ->];
    apply trim_keeps_prefix; (discriminate || reflexivity).
Qed.

Lemma isUrl_nonEmpty (s : jsstring) : isUrl s = true -> nonEmpty s = true.
Proof. destruct s; [discriminate | reflexivity]. Qed.

(* ================================================================== *)
(** ** The matcher *)

Section MatcherFacts.
Context {A : Type}.
Implicit Types (k : jsstring -> option A) (s t : jsstring).

Lemma star_ext cls s k1 k2 :
  (forall t, k1 t = k2 t) -> star cls s k1 = star cls s k2.
Proof.
  intros H. induction s as [|x s IH]; simpl.
  - apply H.
  - rewrite IH, H. reflexivity.
Qed.

Lemma matchAtoms_ext atoms :
  forall s k1 k2, (forall t, k1 t = k2 t) ->
                  matchAtoms atoms s k1 = matchAtoms atoms s k2.
Proof.
  induction atoms as [|a atoms IH]; intros s k1 k2 H; simpl.
  - apply H.
  - destruct a as [c | c | cls].
    + destruct s as [|x s]; [reflexivity|].
      destruct (sameChar c x); [apply IH; assumption | reflexivity].
    + destruct s as [|x s]; [apply IH; assumption|].
      rewrite (IH s k1 k2 H), (IH (x :: s) k1 k2 H). reflexivity.
    + unfold plus. destruct s as [|x s]; [reflexivity|].
      destruct (classMatches cls x); [|reflexivity].
      apply star_ext. intros t. apply IH. assumption.
Qed.

Lemma matchAtoms_app a b :
  forall s k,
    matchAtoms (a ++ b) s k = matchAtoms a s (fun t => matchAtoms b t k).
Proof.
  induction a as [|x a IH]; intros s k; simpl.
  - reflexivity.
  - destruct x as [c | c | cls].
    + destruct s as [|y s]; [reflexivity|].
      destruct (sameChar c y); [apply IH | reflexivity].
    + destruct s as [|y s]; [apply IH|].
      rewrite (IH s k), (IH (y :: s) k). reflexivity.
    + unfold plus. destruct s as [|y s]; [reflexivity|].
      destruct (classMatches cls y); [|reflexivity].
      apply star_ext. intros t. apply IH.
Qed.

(** Literals consume a spelling of themselves. *)
Lemma matchAtoms_lits word :
  forall w s k, spelled word w = true ->
                matchAtoms (map Lit word) (w ++ s) k = k s.
Proof.
  induction word as [|c word IH]; intros [|x w] s k H; simpl in *;
    try discriminate.
  - reflexivity.
  - apply andb_true_iff in H. destruct H as [Hc H].
    rewrite Hc. apply IH. assumption.
Qed.

(** A greedy run takes all of [run] when the class stops after it and the
    rest of the pattern succeeds from there. *)
Lemma star_run cls run s k v :
  forallb (classMatches cls) run = true -> stops cls s = true ->
  k s = Some v -> star cls (run ++ s) k = Some v.
Proof.
  intros Hrun Hs Hk. induction run as [|x run IH]; simpl in *.
  - destruct s as [|y s]; [assumption|].
    simpl in Hs. apply negb_true_iff in Hs. simpl. rewrite Hs. assumption.
  - apply andb_true_iff in Hrun. destruct Hrun as [Hx Hrun].
    rewrite Hx, (IH Hrun). reflexivity.
Qed.

Lemma plus_run cls run s k v :
  nonEmpty run = true -> forallb (classMatches cls) run = true ->
  stops cls s = true -> k s = Some v ->
  matchAtoms [Plus cls] (run ++ s) k = Some v.
Proof.
  intros Hne Hrun Hs Hk. destruct run as [|x run]; [discriminate|].
  simpl in *. apply andb_true_iff in Hrun. destruct Hrun as [Hx Hrun].
  rewrite Hx. apply star_run; assumption.
Qed.

Lemma opt_take c x s rest k v :
  sameChar c x = true -> matchAtoms rest s k = Some v ->
  matchAtoms (Opt c :: rest) (x :: s) k = Some v.
Proof. intros Hc H. simpl. rewrite Hc, H. reflexivity. Qed.

Lemma opt_skip c s rest k :
  match s with x :: _ => sameChar c x | [] => false end = false ->
  matchAtoms (Opt c :: rest) s k = matchAtoms rest s k.
Proof.
  intros H. destruct s as [|x s]; simpl; [reflexivity|].
  rewrite H. reflexivity.
Qed.

(** Whatever the atoms match, the continuation is what answers. *)
Lemma star_answer cls s k v :
  star cls s k = Some v -> exists t, k t = Some v.
Proof.
  induction s as [|x s IH]; simpl; intros H.
  - exists []. assumption.
  - destruct (classMatches cls x).
    + destruct (star cls s k) eqn:E.
      * simpl in H. apply IH. assumption.
      * simpl in H. exists (x :: s). assumption.
    + exists (x :: s). assumption.
Qed.

Lemma matchAtoms_answer atoms :
  forall s k v, matchAtoms atoms s k = Some v -> exists t, k t = Some v.
Proof.
  induction atoms as [|a atoms IH]; intros s k v H; simpl in H.
  - exists s. assumption.
  - destruct a as [c | c | cls].
    + destruct s as [|x s]; [discriminate|].
      destruct (sameChar c x); [eapply IH; eassumption | discriminate].
    + destruct s as [|x s]; [eapply IH; eassumption|].
      destruct (sameChar c x); [|eapply IH; eassumption].
      destruct (matchAtoms atoms s k) eqn:E; simpl in H.
      * eapply IH. rewrite E. assumption.
      * eapply IH; eassumption.
    + unfold plus in H. destruct s as [|x s]; [discriminate|].
      destruct (classMatches cls x); [|discriminate].
      apply star_answer in H. destruct H as [t H].
      eapply IH; eassumption.
Qed.
End MatcherFacts.

Local Open Scope N_scope.

(** A character that a letter of the patterns matches is no whitespace. *)
Lemma letter_solid (c x : jschar) :
  65 <= canonicalize c <= 90 -> sameChar c x = true -> isWhiteSpace x = false.
Proof.
  unfold sameChar, canonicalize, isWhiteSpace. intros Hc H.
  apply N.eqb_eq in H.
  destruct ((97 <=? c) && (c <=? 122)) eqn:Ec;
    destruct ((97 <=? x) && (x <=? 122)) eqn:Ex;
    try (apply andb_true_iff in Ec; destruct Ec as [Ec1 Ec2];
         apply N.leb_le in Ec1; apply N.leb_le in Ec2);
    try (apply andb_true_iff in Ex; destruct Ex as [Ex1 Ex2];
         apply N.leb_le in Ex1; apply N.leb_le in Ex2);
    repeat match goal with
           | |- context [N.eqb ?a ?b] => destruct (N.eqb_spec a b); try lia
           | |- context [N.leb ?a ?b] => destruct (N.leb_spec a b); try lia
           end; reflexivity.
Qed.

Lemma space_class (x : jschar) : classMatches space x = isWhiteSpace x.
Proof. unfold classMatches, space. simpl. rewrite orb_false_r. reflexivity. Qed.

Lemma whitespace_folds (x : jschar) :
  isWhiteSpace x = false -> sameChar 13 x = false /\ sameChar 10 x = false.
Proof.
  intros H.
  assert (H13 : x <> 13) by (intros ->; discriminate).
  assert (H10 : x <> 10) by (intros ->; discriminate).
  unfold sameChar, canonicalize.
  destruct ((97 <=? x) && (x <=? 122)) eqn:Ex.
  - apply andb_true_iff in Ex. destruct Ex as [Ex1 Ex2].
    apply N.leb_le in Ex1. apply N.leb_le in Ex2.
    split; apply N.eqb_neq; simpl; lia.
  - split; apply N.eqb_neq; simpl; lia.
Qed.

Lemma notSpaceCrLf_class (x : jschar) :
  classMatches notSpaceCrLf x = negb (isWhiteSpace x).
Proof.
  unfold classMatches, notSpaceCrLf. simpl.
  destruct (isWhiteSpace x) eqn:E; simpl; [reflexivity|].
  destruct (whitespace_folds x E) as [-> ->]. reflexivity.
Qed.

Local Close Scope N_scope.

(* ================================================================== *)
(** ** Pattern 1 on a report line *)

Lemma blank_run (g : jsstring) :
  blank g = true ->
  nonEmpty g = true /\ forallb (classMatches space) g = true.
Proof.
  unfold blank. intros H. apply andb_true_iff in H. destruct H as [Hne Hg].
  split; [assumption|].
  rewrite forallb_forall in *. intros x Hx. rewrite space_class. auto.
Qed.

Lemma stops_spelled (c : jschar) (word w s : jsstring) :
  (65 <= canonicalize c <= 90)%N -> spelled (c :: word) w = true ->
  stops space (w ++ s) = true.
Proof.
  intros Hc H. destruct w as [|x w]; simpl in H; [discriminate|].
  apply andb_true_iff in H. destruct H as [Hx _].
  simpl. rewrite space_class, (letter_solid c x Hc Hx). reflexivity.
Qed.

Section ReportLine.
Variables w1 g1 w2 g2 w3 : jsstring.
Hypothesis full : spelled (js "Full") w1 = true.
Hypothesis gap1 : blank g1 = true.
Hypothesis rep : spelled (js "Report") w2 = true.
Hypothesis gap2 : blank g2 = true.
Hypothesis det : spelled (js "Details") w3 = true.

(** The phrase, in any letter case and with any gaps, is matched by the
    phrase atoms along their first choices. *)
Lemma phrase_match {A} (s : jsstring) (k : jsstring -> option A) (v : A) :
  k s = Some v ->
  matchAtoms phrase (w1 ++ g1 ++ w2 ++ g2 ++ w3 ++ s) k = Some v.
Proof.
  intros Hk. unfold phrase, lits.
  rewrite matchAtoms_app, matchAtoms_lits by exact full.
  rewrite matchAtoms_app.
  destruct (blank_run g1 gap1) as [Hn1 Hr1].
  apply plus_run; try assumption.
  { apply stops_spelled with (c := 82%N) (word := js "eport");
      [change (canonicalize 82%N) with 82%N; lia | exact rep]. }
  rewrite matchAtoms_app, matchAtoms_lits by exact rep.
  rewrite matchAtoms_app.
  destruct (blank_run g2 gap2) as [Hn2 Hr2].
  apply plus_run; try assumption.
  { apply stops_spelled with (c := 68%N) (word := js "etails");
      [change (canonicalize 68%N) with 68%N; lia | exact det]. }
  rewrite matchAtoms_lits by exact det. assumption.
Qed.

Variables g url post : jsstring.
Hypothesis gap : blank g = true.
Hypothesis token : urlToken url = true.
Hypothesis ends : tokenEnds post = true.

Lemma token_solid : forallb (fun x => negb (isWhiteSpace x)) url = true.
Proof.
  unfold urlToken in token. apply andb_true_iff in token. tauto.
Qed.

Lemma token_shape :
  exists body, nonEmpty body = true /\
               forallb (classMatches notSpaceCrLf) body = true /\
               (url = js "http" ++ js "://" ++ body \/
                url = js "http" ++ 115%N :: js "://" ++ body).
Proof.
  pose proof token_solid as Hs.
  unfold urlToken in token. apply andb_true_iff in token.
  destruct token as [_ Hb]. apply orb_true_iff in Hb.
  assert (Hcls : forall p body, url = p ++ body ->
            forallb (classMatches notSpaceCrLf) body = true).
  { intros p body E. rewrite E in Hs. rewrite forallb_app in Hs.
    apply andb_true_iff in Hs. destruct Hs as [_ Hs].
    rewrite forallb_forall in *. intros x Hx.
    rewrite notSpaceCrLf_class. auto. }
  destruct Hb as [Hb | Hb]; unfold hasBody in Hb;
    apply andb_true_iff in Hb; destruct Hb as [Hp Hl];
    apply startsWith_app in Hp; destruct Hp as [body E];
    exists body; (split; [|split]).
  - rewrite E in Hl. destruct body; [|reflexivity].
    rewrite app_nil_r in Hl. apply Nat.ltb_lt in Hl. lia.
  - eapply Hcls; eassumption.
  - left. exact E.
  - rewrite E in Hl. destruct body; [|reflexivity].
    rewrite app_nil_r in Hl. apply Nat.ltb_lt in Hl. lia.
  - eapply Hcls; eassumption.
  - right. exact E.
Qed.

Lemma token_head_stops : stops space (url ++ post) = true.
Proof.
  destruct token_shape as [body [_ [_ [E | E]]]]; rewrite E; reflexivity.
Qed.

Lemma post_stops : stops notSpaceCrLf post = true.
Proof.
  destruct post as [|x r]; [reflexivity|]. simpl in *.
  rewrite notSpaceCrLf_class, ends. reflexivity.
Qed.

Lemma capture_length :
  firstn (List.length (url ++ post) - List.length post) (url ++ post) = url.
Proof.
  rewrite length_app. replace (List.length url + List.length post -
    List.length post) with (List.length url + 0) by lia.
  rewrite firstn_app_2. simpl. apply app_nil_r.
Qed.

(** The scheme and the token are matched by the group of pattern 1 along
    its first choices, which leaves [post]. *)
Lemma group1_match {A} (k : jsstring -> option A) (v : A) :
  k post = Some v ->
  matchAtoms (scheme ++ [Plus notSpaceCrLf]) (url ++ post) k = Some v.
Proof.
  intros Hk. pose proof post_stops as Hpost.
  destruct token_shape as [body [Hne [Hcls E]]].
  change (scheme ++ [Plus notSpaceCrLf])
    with (map Lit (js "http") ++
          Opt 115%N :: map Lit (js "://") ++ [Plus notSpaceCrLf]).
  assert (Hrest : matchAtoms (map Lit (js "://") ++ [Plus notSpaceCrLf])
            (js "://" ++ body ++ post) k = Some v).
  { rewrite matchAtoms_app, matchAtoms_lits by reflexivity.
    apply plus_run; assumption. }
  destruct E as [E | E]; rewrite E; repeat rewrite <- app_assoc;
    rewrite matchAtoms_app, matchAtoms_lits by reflexivity.
  - rewrite opt_skip by reflexivity. exact Hrest.
  - apply (opt_take 115%N); [reflexivity | exact Hrest].
Qed.

Lemma pattern1_match :
  matchHere pattern1 (w1 ++ g1 ++ w2 ++ g2 ++ w3 ++ g ++ url ++ post)
  = Some url.
Proof.
  unfold matchHere, pattern1. cbn [head group].
  rewrite matchAtoms_app. apply phrase_match.
  destruct (blank_run g gap) as [Hn Hr].
  apply plus_run; try assumption.
  - apply token_head_stops.
  - apply group1_match. rewrite capture_length. reflexivity.
Qed.
End ReportLine.

Lemma noMatchBefore_exec (r : regex) (pre rest : jsstring) :
  noMatchBefore r pre rest = true -> exec r (pre ++ rest) = exec r rest.
Proof.
  induction pre as [|c pre IH]; simpl; intros H; [reflexivity|].
  change (c :: pre ++ rest) with ((c :: pre) ++ rest) in *.
  destruct (matchHere r ((c :: pre) ++ rest)); [discriminate|].
  apply IH. assumption.
Qed.

Lemma exec_here (r : regex) (s cap : jsstring) :
  matchHere r s = Some cap -> exec r s = Some cap.
Proof. intros H. destruct s; simpl; rewrite H; reflexivity. Qed.

(* ================================================================== *)
(** ** What [extractScanUrl] returns and what it leaves behind *)

Lemma appendLog_nil (w : World) : appendLog w [] = w.
Proof. destruct w. unfold appendLog. simpl. rewrite app_nil_r. reflexivity. Qed.

Lemma appendLog_app (w : World) (a b : list LogLine) :
  appendLog (appendLog w a) b = appendLog w (a ++ b).
Proof. unfold appendLog. simpl. rewrite app_assoc. reflexivity. Qed.

Lemma logsOnly_ret {A} (a : A) (w : World) : logsOnly (ret a) w a.
Proof. exists []. rewrite appendLog_nil. reflexivity. Qed.

Lemma logsOnly_info (l : LogLine) (w : World) : logsOnly (info l) w tt.
Proof. exists [l]. reflexivity. Qed.

Lemma logsOnly_bind {A B} (m : M A) (k : A -> M B) (w : World) (a : A) (b : B) :
  logsOnly m w a ->
  (forall ls, logsOnly (k a) (appendLog w ls) b) ->
  logsOnly (bind m k) w b.
Proof.
  intros [ls Hm] Hk. destruct (Hk ls) as [ls' Hk'].
  exists (ls ++ ls'). unfold bind. rewrite Hm, Hk', appendLog_app.
  reflexivity.
Qed.

Lemma scanPatterns_logsOnly (ps : list regex) :
  forall output i w,
    logsOnly (scanPatterns output i ps) w (firstUrl ps output).
Proof.
  induction ps as [|p ps IH]; intros output i w; simpl.
  - apply logsOnly_ret.
  - destruct (exec p output) as [cap|]; [|apply IH].
    destruct (nonEmpty cap); simpl; [|apply IH].
    destruct (isUrl (trim cap)).
    + eapply logsOnly_bind; [apply logsOnly_info|].
      intros ls. apply logsOnly_ret.
    + eapply logsOnly_bind; [apply logsOnly_info|].
      intros ls. apply IH.
Qed.

Lemma jsonFallback_logsOnly (w : World) :
  logsOnly (tryCatch jsonFallback (fun e => info (JsonError e) ;; ret None))
           w (fallbackUrl (sidecar w)).
Proof.
  unfold logsOnly, tryCatch, jsonFallback, bind, existsSidecar,
    readSidecarJson, fallbackUrl, lift, info, ret, throw.
  destruct (sidecar w) as [| | |v] eqn:Esc; cbn [sidecar appendLog];
    try rewrite Esc.
  - exists [JsonMissing]. reflexivity.
  - exists [JsonExists; JsonError SystemError].
    rewrite appendLog_app. reflexivity.
  - exists [JsonExists; JsonError SyntaxError].
    rewrite appendLog_app. reflexivity.
  - destruct (andJs (records_of (Val v))
               (andJs (record0_of (Val v))
                  (andJs (metadata_of (Val v)) (report_of (Val v)))))
      as [cond | e].
    + destruct (truthy cond).
      * destruct (report_of (Val v)) as [[|[| | |s| |]] | e];
          try (exists [JsonExists; JsonError TypeError];
               rewrite appendLog_app; reflexivity).
        -- destruct (isUrl s).
           ++ exists [JsonExists; JsonFound s].
              rewrite appendLog_app. reflexivity.
           ++ exists [JsonExists]. reflexivity.
        -- exists [JsonExists; JsonError e].
           rewrite appendLog_app. reflexivity.
      * exists [JsonExists; JsonNoReport].
        rewrite appendLog_app. reflexivity.
    + exists [JsonExists; JsonError e].
      rewrite appendLog_app. reflexivity.
Qed.

(** The value of [extractScanUrl] is [urlFor], and the call only writes to
    the log. *)
Lemma extractScanUrl_logsOnly (output : jsstring) (w : World) :
  logsOnly (extractScanUrl output) w (urlFor (sidecar w) output).
Proof.
  unfold extractScanUrl, urlFor.
  eapply logsOnly_bind; [apply logsOnly_info|]. intros l0.
  destruct (nonEmpty output); cbn [negb].
  2:{ eapply logsOnly_bind; [apply logsOnly_info|].
      intros. apply logsOnly_ret. }
  eapply logsOnly_bind; [apply logsOnly_info|]. intros l1.
  eapply logsOnly_bind; [apply logsOnly_info|]. intros l2.
  eapply logsOnly_bind with (a := tt).
  { destruct (test phraseRe output); [|apply logsOnly_ret].
    destruct (find (test phraseRe) (split 10%N output)) as [line|];
      [|apply logsOnly_ret].
    destruct (nonEmpty line); [apply logsOnly_info | apply logsOnly_ret]. }
  intros l3.
  eapply logsOnly_bind; [apply scanPatterns_logsOnly|]. intros l4.
  destruct (firstUrl patterns output) as [url|]; [apply logsOnly_ret|].
  eapply logsOnly_bind; [apply logsOnly_info|]. intros l5.
  eapply logsOnly_bind; [apply jsonFallback_logsOnly|]. intros l6.
  cbn [sidecar appendLog].
  destruct (fallbackUrl (sidecar w)); [apply logsOnly_ret|].
  eapply logsOnly_bind; [apply logsOnly_info|]. intros l7.
  eapply logsOnly_bind; [apply logsOnly_info|]. intros l8.
  apply logsOnly_ret.
Qed.

Lemma extractScanUrl_value (output : jsstring) (w : World) :
  fst (extractScanUrl output w) = Normal (urlFor (sidecar w) output).
Proof.
  destruct (extractScanUrl_logsOnly output w) as [ls ->]. reflexivity.
Qed.

Lemma firstUrl_valid (ps : list regex) (output url : jsstring) :
  firstUrl ps output = Some url -> isUrl url = true.
Proof.
  induction ps as [|p ps IH]; simpl; [discriminate|].
  destruct (exec p output) as [cap|]; [|exact IH].
  destruct (nonEmpty cap); simpl; [|exact IH].
  destruct (isUrl (trim cap)) eqn:E; [|exact IH].
  intros H. injection H as <-. exact E.
Qed.

Lemma fallbackUrl_valid (sc : SidecarFile) (url : jsstring) :
  fallbackUrl sc = Some url -> isUrl url = true.
Proof.
  unfold fallbackUrl. destruct sc as [| | |v]; try discriminate.
  destruct (andJs _ _) as [cond|]; [|discriminate].
  destruct (truthy cond); [|discriminate].
  destruct (report_of (Val v)) as [[|[| | |s| |]]|]; try discriminate.
  destruct (isUrl s) eqn:E; [|discriminate].
  intros H. injection H as <-. exact E.
Qed.

Lemma urlFor_valid (sc : SidecarFile) (output url : jsstring) :
  urlFor sc output = Some url -> isUrl url = true.
Proof.
  unfold urlFor. destruct (nonEmpty output); [|discriminate].
  destruct (firstUrl patterns output) as [u|] eqn:E.
  - intros H. injection H as <-. eapply firstUrl_valid; eassumption.
  - apply fallbackUrl_valid.
Qed.

(** A pattern whose capture fails the validation is passed over. *)
Lemma firstUrl_skip (p : regex) (ps : list regex) (output tok : jsstring) :
  exec p output = Some tok -> isUrl (trim tok) = false ->
  firstUrl (p :: ps) output = firstUrl ps output.
Proof.
  intros He Hv. simpl. rewrite He, Hv, andb_false_r. reflexivity.
Qed.

Lemma firstUrl_none (ps : list regex) (output : jsstring) :
  (forall p cap, In p ps -> exec p output = Some cap ->
                 isUrl (trim cap) = false) ->
  firstUrl ps output = None.
Proof.
  induction ps as [|p ps IH]; intros H; simpl; [reflexivity|].
  destruct (exec p output) as [cap|] eqn:E.
  - rewrite (H p cap (or_introl eq_refl) E), andb_false_r.
    apply IH. intros q c Hq. apply H. right. assumption.
  - apply IH. intros q c Hq. apply H. right. assumption.
Qed.

(** A report at [records[0].metadata.report] makes every operand of the
    condition truthy, so the fallback returns it. *)
Lemma fallbackUrl_report (sc : SidecarFile) (url : jsstring) :
  sidecarReport sc url -> fallbackUrl sc = Some url.
Proof.
  intros [v [-> [Hr Hu]]]. unfold fallbackUrl.
  pose proof (isUrl_nonEmpty url Hu) as Hne.
  rewrite Hr. unfold report_of, metadata_of, record0_of, records_of in *.
  unfold andJs.
  destruct (member (Val v) records) as [r|]; simpl in *; [|discriminate].
  destruct (index0 r) as [r0|] eqn:E0; simpl in *; [|discriminate].
  destruct (member r0 metadata) as [m|] eqn:Em; simpl in *; [|discriminate].
  assert (Hm : truthy m = true).
  { destruct m as [|[]]; simpl in Hr; try discriminate; reflexivity. }
  assert (Hr0 : truthy r0 = true).
  { destruct r0 as [|[]]; simpl in Em; try discriminate; try reflexivity;
      injection Em as <-; discriminate. }
  assert (Hrr : truthy r = true).
  { destruct r as [|[| | |s| |]]; simpl in E0; try discriminate;
      try reflexivity;
      try (injection E0 as <-; discriminate).
    destruct s; [|reflexivity]. injection E0 as <-. discriminate. }
  rewrite Hrr, Hr0, Hm. simpl. rewrite Hne, Hu. reflexivity.
Qed.

(** Without such a report the fallback returns nothing. *)
Lemma fallbackUrl_no_report (sc : SidecarFile) :
  (forall url, ~ sidecarReport sc url) -> fallbackUrl sc = None.
Proof.
  intros H. destruct (fallbackUrl sc) as [url|] eqn:E; [|reflexivity].
  exfalso. apply (H url). pose proof (fallbackUrl_valid sc url E) as Hu.
  unfold fallbackUrl in E. destruct sc as [| | |v]; try discriminate.
  exists v. split; [reflexivity|]. split; [|exact Hu].
  destruct (andJs _ _) as [cond|]; [|discriminate].
  destruct (truthy cond); [|discriminate].
  destruct (report_of (Val v)) as [[|[| | |s| |]]|]; try discriminate.
  destruct (isUrl s); [|discriminate].
  injection E as ->. reflexivity.
Qed.

(* ================================================================== *)
(** ** What a capture looks like *)

Lemma trimStart_suffix (s : jsstring) : exists a, s = a ++ trimStart s.
Proof.
  induction s as [|x s [a IH]]; [exists []; reflexivity|].
  simpl. destruct (isWhiteSpace x).
  - exists (x :: a). simpl. rewrite <- IH. reflexivity.
  - exists []. reflexivity.
Qed.

Lemma trimEnd_prefix (s : jsstring) : exists r, s = trimEnd s ++ r.
Proof.
  unfold trimEnd. destruct (trimStart_suffix (rev s)) as [a Ha].
  exists (rev a). rewrite <- rev_app_distr, <- Ha. symmetry.
  apply rev_involutive.
Qed.

Lemma startsWith_extend (s r p : jsstring) :
  startsWith s p = true -> startsWith (s ++ r) p = true.
Proof.
  intros H. apply startsWith_app in H. destruct H as [t ->].
  rewrite <- app_assoc. apply startsWith_prefix.
Qed.

(** On a string that does not start with whitespace, trimming cannot make a
    scheme appear. *)
Lemma isUrl_untrim (s : jsstring) :
  match s with x :: _ => isWhiteSpace x = false | [] => True end ->
  isUrl (trim s) = true -> isUrl s = true.
Proof.
  intros Hh. unfold trim.
  assert (Hs : trimStart s = s).
  { destruct s as [|x s]; [reflexivity | apply trimStart_head; exact Hh]. }
  rewrite Hs. destruct (trimEnd_prefix s) as [r Hr].
  unfold isUrl. intros H. rewrite Hr.
  apply orb_true_iff in H. apply orb_true_iff.
  destruct H as [H | H]; [left | right]; apply startsWith_extend; exact H.
Qed.

Lemma exec_somewhere (r : regex) (s cap : jsstring) :
  exec r s = Some cap -> exists t, matchHere r t = Some cap.
Proof.
  induction s as [|x s IH]; simpl.
  - destruct (matchHere r []) eqn:E; [|discriminate].
    intros H. injection H as <-. exists []. exact E.
  - destruct (matchHere r (x :: s)) eqn:E.
    + intros H. injection H as <-. exists (x :: s). exact E.
    + exact IH.
Qed.

Lemma firstn_head (n : nat) (x : jschar) (s cap : jsstring) :
  firstn n (x :: s) = cap ->
  match cap with y :: _ => y = x | [] => True end.
Proof. destruct n; simpl; intros <-; reflexivity || exact I. Qed.

(** Every group of the four patterns opens on a character that is not
    whitespace, so no capture starts with whitespace. *)
Lemma capture_head (p : regex) (output cap : jsstring) :
  In p patterns -> exec p output = Some cap ->
  match cap with x :: _ => isWhiteSpace x = false | [] => True end.
Proof.
  intros Hp He. apply exec_somewhere in He. destruct He as [t Hm].
  unfold matchHere in Hm. apply matchAtoms_answer in Hm.
  destruct Hm as [s1 Hg].
  assert (Hlit : forall rest,
            matchAtoms (Lit 104%N :: rest) s1
              (fun s2 => Some (firstn (List.length s1 - List.length s2) s1))
            = Some cap ->
            match cap with x :: _ => isWhiteSpace x = false | [] => True end).
  { intros rest H. simpl in H. destruct s1 as [|x s1]; [discriminate|].
    destruct (sameChar 104%N x) eqn:Ex; [|discriminate].
    apply matchAtoms_answer in H. destruct H as [s2 H].
    injection H as H. apply firstn_head in H.
    destruct cap as [|y cap]; [exact I|]. subst y.
    apply (letter_solid 104%N x); [|exact Ex].
    change (canonicalize 104%N) with 72%N. lia. }
  destruct Hp as [<- | [<- | [<- | [<- | []]]]]; cbn [group] in Hg;
    try (apply (Hlit _ Hg)).
  (* pattern 3: the group is \S+ *)
  simpl in Hg. unfold plus in Hg. destruct s1 as [|x s1]; [discriminate|].
  destruct (classMatches nonSpace x) eqn:Ex; [|discriminate].
  apply star_answer in Hg. destruct Hg as [s2 H].
  injection H as H. apply firstn_head in H.
  destruct cap as [|y cap]; [exact I|]. subst y.
  unfold classMatches, nonSpace in Ex. simpl in Ex.
  rewrite orb_false_r in Ex. apply negb_true_iff in Ex. exact Ex.
Qed.

(** For a capture, the validation of the trimmed token and the scheme test
    on the token itself agree. *)
Lemma capture_validation (p : regex) (output cap : jsstring) :
  In p patterns -> exec p output = Some cap ->
  isUrl (trim cap) = isUrl cap.
Proof.
  intros Hp He. pose proof (capture_head p output cap Hp He) as Hh.
  destruct (isUrl cap) eqn:E.
  - apply isUrl_trim. exact E.
  - destruct (isUrl (trim cap)) eqn:Et; [|reflexivity].
    apply (isUrl_untrim cap Hh) in Et. congruence.
Qed.

(* ================================================================== *)
(** ** The extractor: properties *)

(** C1, as stated, fails: with the empty text and the sidecar of scenario D
    the extractor returns the absence value, not the sidecar URL. *)
Lemma empty_input_ignores_sidecar :
  sidecarReport scenarioD (js "http://x.test/y") /\
  fst (extractScanUrl (js "") (world0 scenarioD)) = Normal None /\
  fst (extractScanUrl (js "") (world0 scenarioD))
    <> Normal (Some (js "http://x.test/y")).
Proof.
  split; [|split].
  - eexists. split; [reflexivity|]. split; reflexivity.
  - reflexivity.
  - discriminate.
Qed.

(** C1, amended: on the empty text the extractor returns the absence value
    whatever the sidecar file holds, and does nothing but log its first two
    lines: the sidecar is not consulted. *)
Theorem empty_input_returns_absence (w : World) :
  extractScanUrl [] w
  = (Normal None, appendLog w [ExtractionStarts; OutputEmpty]).
Proof.
  unfold extractScanUrl, bind, info, ret. simpl.
  rewrite appendLog_app. reflexivity.
Qed.

(** C2, as stated, fails: the text below contains the phrase followed by a
    blank and a well-formed https URL, and the extractor returns the absence
    value, because every pattern matches at the earlier occurrence of the
    phrase, whose token has an upper-case scheme. *)
Lemma later_report_line_is_missed :
  let pre := js "Full Report Details HTTP://bad" ++ [10%N] in
  let url := js "https://good.example/x" in
  isReportLine (js "Full") (js " ") (js "Report") (js " ") (js "Details")
               (js " ") url [] = true /\
  fst (extractScanUrl
         (reportLine pre (js "Full") (js " ") (js "Report") (js " ")
                     (js "Details") (js " ") url [])
         (world0 Missing)) = Normal None.
Proof. split; vm_compute; reflexivity. Qed.

(** C2, amended: when the text contains the phrase "Full Report Details" (in
    any letter case, with any runs of whitespace between the words) followed
    by whitespace and a URL token that starts with http:// or https://, and
    no match of the first pattern starts earlier in the text, the extractor
    returns exactly that URL. *)
Theorem first_report_line_url_is_returned
        (pre w1 g1 w2 g2 w3 g url post : jsstring) (w : World) :
  isReportLine w1 g1 w2 g2 w3 g url post = true ->
  noMatchBefore pattern1 pre
    (reportLine [] w1 g1 w2 g2 w3 g url post) = true ->
  fst (extractScanUrl (reportLine pre w1 g1 w2 g2 w3 g url post) w)
  = Normal (Some url).
Proof.
  unfold isReportLine, reportLine. intros Hline Hpre.
  repeat (apply andb_true_iff in Hline; destruct Hline as [Hline ?]).
  simpl app in Hpre.
  assert (Hexec : exec pattern1
            (pre ++ w1 ++ g1 ++ w2 ++ g2 ++ w3 ++ g ++ url ++ post)
          = Some url).
  { rewrite (noMatchBefore_exec _ _ _ Hpre).
    apply exec_here. apply pattern1_match; assumption. }
  assert (Hsolid : forallb (fun x => negb (isWhiteSpace x)) url = true)
    by (apply token_solid; assumption).
  assert (Hurl : isUrl url = true).
  { destruct (token_shape url) as [body [_ [_ [E | E]]]]; [assumption| |];
      rewrite E; reflexivity. }
  rewrite extractScanUrl_value. unfold urlFor.
  assert (Hne : nonEmpty (pre ++ w1 ++ g1 ++ w2 ++ g2 ++ w3 ++ g ++ url ++ post)
                = true).
  { destruct pre; [|reflexivity]. destruct w1; [discriminate | reflexivity]. }
  rewrite Hne. unfold patterns. simpl firstUrl.
  rewrite Hexec, (trim_solid url Hsolid), Hurl, (isUrl_nonEmpty url Hurl).
  reflexivity.
Qed.

(** Scenario A, through the theorem. *)
Lemma scenario_A :
  fst (extractScanUrl
         (js "Build OK" ++ [10%N] ++
          js "Full Report Details   https://scan.example.com/r/123" ++ [10%N])
         (world0 Missing))
  = Normal (Some (js "https://scan.example.com/r/123")).
Proof.
  exact (first_report_line_url_is_returned
           (js "Build OK" ++ [10%N]) (js "Full") (js " ") (js "Report")
           (js " ") (js "Details") (js "   ")
           (js "https://scan.example.com/r/123") [10%N] (world0 Missing)
           eq_refl eq_refl).
Defined.

(** C3: a token captured by a pattern that does not begin with http:// or
    https:// (in exactly that letter case) is never returned; the loop goes
    on with the next pattern, and once every capture is rejected the result
    is that of the sidecar fallback.  With no sidecar file,
    "Full Report Details: not-a-url" gives the absence value. *)
Theorem rejected_token_is_never_returned
        (output tok : jsstring) (p : regex) (w : World) :
  In p patterns -> exec p output = Some tok -> isUrl tok = false ->
  fst (extractScanUrl output w) <> Normal (Some tok) /\
  fst (extractScanUrl output w) <> Normal (Some (trim tok)) /\
  (forall rest i w',
      fst (scanPatterns output i (p :: rest) w')
      = fst (scanPatterns output (S i) rest w')) /\
  ((forall q cap, In q patterns -> exec q output = Some cap ->
                  isUrl cap = false) ->
   fst (extractScanUrl output w)
   = fst (tryCatch jsonFallback (fun e => info (JsonError e) ;; ret None) w)) /\
  (sidecar w = Missing ->
   fst (extractScanUrl (js "Full Report Details: not-a-url") w) = Normal None).
Proof.
  intros Hp He Htok.
  assert (Htrim : isUrl (trim tok) = false)
    by (rewrite (capture_validation p output tok Hp He); exact Htok).
  assert (Hvalid : forall u, fst (extractScanUrl output w) = Normal (Some u) ->
                             isUrl u = true).
  { intros u Hu. rewrite extractScanUrl_value in Hu. injection Hu as Hu.
    eapply urlFor_valid. eassumption. }
  split; [|split; [|split; [|split]]].
  - intros H. apply Hvalid in H. congruence.
  - intros H. apply Hvalid in H. congruence.
  - intros rest i w'.
    destruct (scanPatterns_logsOnly (p :: rest) output i w') as [l1 ->].
    destruct (scanPatterns_logsOnly rest output (S i) w') as [l2 ->].
    cbn [fst]. rewrite (firstUrl_skip p rest output tok He Htrim).
    reflexivity.
  - intros Hall. rewrite extractScanUrl_value.
    destruct (jsonFallback_logsOnly w) as [l ->]. cbn [fst].
    unfold urlFor. destruct output as [|x output].
    { exfalso. clear - Hp He.
      destruct Hp as [<- | [<- | [<- | [<- | []]]]]; discriminate. }
    cbn [nonEmpty]. rewrite firstUrl_none; [reflexivity|].
    intros q cap Hq Hc.
    rewrite (capture_validation q _ cap Hq Hc). eapply Hall; eassumption.
  - intros Hsc. rewrite extractScanUrl_value, Hsc. reflexivity.
Qed.

(** An upper-case scheme is rejected: pattern 1 captures "HTTPS://x" and the
    extractor does not return it. *)
Lemma uppercase_scheme_is_rejected :
  fst (extractScanUrl (js "Full Report Details HTTPS://x") (world0 Missing))
  <> Normal (Some (js "HTTPS://x")).
Proof.
  exact (proj1 (rejected_token_is_never_returned
                  (js "Full Report Details HTTPS://x") (js "HTTPS://x")
                  pattern1 (world0 Missing)
                  (or_introl eq_refl) eq_refl eq_refl)).
Defined.

(** C4: on a non-empty text in which no pattern yields a validated URL, a
    sidecar file that exists, parses, and holds at
    [records[0].metadata.report] a string beginning with http:// or https://
    makes the extractor return that string. *)
Theorem sidecar_report_is_returned (output url : jsstring) (w : World) :
  nonEmpty output = true ->
  (forall p cap, In p patterns -> exec p output = Some cap ->
                 isUrl (trim cap) = false) ->
  sidecarReport (sidecar w) url ->
  fst (extractScanUrl output w) = Normal (Some url).
Proof.
  intros Hne Hnone Hrep. rewrite extractScanUrl_value. unfold urlFor.
  rewrite Hne, (firstUrl_none patterns output Hnone).
  rewrite (fallbackUrl_report _ _ Hrep). reflexivity.
Qed.

Lemma sidecar_report_is_returned_scenario :
  fst (extractScanUrl (js "Build OK") (world0 scenarioD))
  = Normal (Some (js "http://x.test/y")).
Proof.
  apply (sidecar_report_is_returned (js "Build OK") (js "http://x.test/y")
           (world0 scenarioD)).
  - reflexivity.
  - intros p cap [<- | [<- | [<- | [<- | []]]]]; vm_compute; discriminate.
  - eexists. split; [reflexivity|]. split; reflexivity.
Defined.

(** C5: whatever the text and the state of the sidecar file, the extractor
    returns the absence value or a string that begins with http:// or
    https://. *)
Theorem extractScanUrl_returns_url_or_absence (output : jsstring) (w : World) :
  match fst (extractScanUrl output w) with
  | Normal None => True
  | Normal (Some url) => isUrl url = true
  | Throw _ => False
  end.
Proof.
  rewrite extractScanUrl_value.
  destruct (urlFor (sidecar w) output) as [url|] eqn:E; [|exact I].
  eapply urlFor_valid. eassumption.
Qed.

(** C6: the extractor never throws; a sidecar file that is missing, cannot
    be read, does not parse, or holds no report URL gives the same result as
    no sidecar file at all, which is the absence value when no pattern
    matched. *)
Theorem extractScanUrl_never_throws (output : jsstring) (w : World) :
  (exists r w', extractScanUrl output w = (Normal r, w')) /\
  (sidecar w = Missing \/ sidecar w = Unreadable \/ sidecar w = Malformed \/
   (forall url, ~ sidecarReport (sidecar w) url) ->
   fst (extractScanUrl output w)
   = fst (extractScanUrl output (withSidecar Missing w)) /\
   ((forall p, In p patterns -> exec p output = None) ->
    fst (extractScanUrl output w) = Normal None)).
Proof.
  split.
  - destruct (extractScanUrl_logsOnly output w) as [ls H].
    eexists. eexists. exact H.
  - intros Hsc.
    assert (Hfb : fallbackUrl (sidecar w) = None).
    { destruct Hsc as [-> | [-> | [-> | H]]]; try reflexivity.
      apply fallbackUrl_no_report. exact H. }
    rewrite !extractScanUrl_value. unfold urlFor. cbn [sidecar withSidecar].
    rewrite Hfb. split; [reflexivity|].
    intros Hnone. rewrite firstUrl_none.
    + destruct (nonEmpty output); reflexivity.
    + intros p cap Hp Hc. rewrite (Hnone p Hp) in Hc. discriminate.
Qed.

Lemma malformed_sidecar_is_absence :
  fst (extractScanUrl (js "Full Report Details: not-a-url") (world0 Malformed))
  = Normal None.
Proof.
  apply (proj2 (extractScanUrl_never_throws
                  (js "Full Report Details: not-a-url") (world0 Malformed))).
  - right. right. left. reflexivity.
  - intros p [<- | [<- | [<- | [<- | []]]]]; vm_compute; reflexivity.
Defined.

(** C9: a call leaves the sidecar file and everything but the log as it
    found them, so a second call with the same text returns what the first
    one did. *)
Theorem extractScanUrl_twice (output : jsstring) (w : World) :
  let first := extractScanUrl output w in
  fst (extractScanUrl output (snd first)) = fst first /\
  sidecar (snd first) = sidecar w /\
  resultFile (snd first) = resultFile w /\
  resultWritable (snd first) = resultWritable w /\
  scanUrl (snd first) = scanUrl w /\
  failed (snd first) = failed w.
Proof.
  cbv zeta. destruct (extractScanUrl_logsOnly output w) as [ls H].
  rewrite H. cbn [fst snd]. rewrite extractScanUrl_value.
  cbn [sidecar appendLog]. repeat split; reflexivity.
Qed.

(* ================================================================== *)
(** ** The collectors *)

Section CollectorFacts.
Variable toLowerCase : jsstring -> jsstring.
Hypothesis toLowerCase_empty : toLowerCase [] = [].

Lemma cleanStep_fold (inputArr : list jsstring) :
  forall allowed,
    fold_left (cleanStep toLowerCase) inputArr allowed
    = allowed ++ filter (includes collectors)
                     (map (normalized toLowerCase) inputArr).
Proof.
  induction inputArr as [|input rest IH]; intros allowed;
    cbn [fold_left map filter].
  - symmetry. apply app_nil_r.
  - rewrite IH. unfold cleanStep. fold (normalized toLowerCase input).
    destruct input as [|c input].
    + unfold normalized. change (trim []) with (@nil jschar).
      rewrite toLowerCase_empty. cbn [nonEmpty andb].
      change (includes collectors []) with false. reflexivity.
    + cbn [nonEmpty andb].
      destruct (includes collectors (normalized toLowerCase (c :: input))).
      * rewrite <- app_assoc. reflexivity.
      * reflexivity.
Qed.

(** C10: [cleanCollectors] keeps exactly the entries that, trimmed and
    lower-cased, are in the allowlist of 23 names, returns them trimmed and
    lower-cased in the order of the input, and drops the rest; so the two
    collector flags list names of the allowlist only. *)
Theorem cleanCollectors_keeps_the_allowlist (inputArr : list jsstring) :
  cleanCollectors toLowerCase inputArr
  = filter (includes collectors) (map (normalized toLowerCase) inputArr) /\
  List.length collectors = 23 /\
  Forall (fun name => In name collectors)
         (cleanCollectors toLowerCase inputArr) /\
  (forall flag,
      collectorsAttr toLowerCase flag inputArr = [] \/
      collectorsAttr toLowerCase flag inputArr
      = js flag ++ js " " ++ join (cleanCollectors toLowerCase inputArr)
           ++ js " ").
Proof.
  assert (E : cleanCollectors toLowerCase inputArr
              = filter (includes collectors)
                       (map (normalized toLowerCase) inputArr)).
  { unfold cleanCollectors. rewrite cleanStep_fold. reflexivity. }
  split; [exact E|]. split; [reflexivity|]. split.
  - rewrite E. apply Forall_forall. intros name Hin.
    apply filter_In in Hin. destruct Hin as [_ Hin].
    apply includes_In. exact Hin.
  - intros flag. unfold collectorsAttr.
    destruct (0 <? List.length (cleanCollectors toLowerCase inputArr));
      [right | left]; reflexivity.
Qed.
End CollectorFacts.

Lemma cleanCollectors_example :
  cleanCollectors asciiLowerCase
    [js " Maven "; js "nuget"; js ""; js "Go Mod"; js "NPM"; js "rm -rf"]
  = [js "maven"; js "go mod"; js "npm"] /\
  Forall (fun name => In name collectors)
    (cleanCollectors asciiLowerCase
       [js " Maven "; js "nuget"; js ""; js "Go Mod"; js "NPM"; js "rm -rf"]).
Proof.
  split.
  - reflexivity.
  - exact (proj1 (proj2 (proj2
      (cleanCollectors_keeps_the_allowlist asciiLowerCase eq_refl
         [js " Maven "; js "nuget"; js ""; js "Go Mod"; js "NPM";
          js "rm -rf"])))).
Defined.

(* ================================================================== *)
(** ** [runAction]: what each branch leaves behind *)

Lemma collect_logsOnly (echo : bool) (cs : list Chunk) :
  forall output stderrOutput w,
    logsOnly (collect echo cs output stderrOutput) w
      (output ++ stdoutText cs, stderrOutput ++ stderrText cs).
Proof.
  unfold stdoutText, stderrText.
  induction cs as [|[d|d] cs IH]; intros output stderrOutput w; simpl.
  - rewrite !app_nil_r. apply logsOnly_ret.
  - eapply logsOnly_bind with (a := tt).
    + destruct echo; [apply logsOnly_info | apply logsOnly_ret].
    + intros ls. rewrite app_assoc. apply IH.
  - eapply logsOnly_bind; [apply logsOnly_info|].
    intros ls. rewrite app_assoc. apply IH.
Qed.

Section Runs.
Context {A B : Type}.

Lemma runs_bind (m : M A) (k : A -> M B) w
      (Q : Completion B -> World -> list LogLine -> Prop) :
  runs m w (fun r w1 l1 =>
    match r with
    | Normal a => runs (k a) w1 (fun r' w2 l2 => Q r' w2 (l1 ++ l2))
    | Throw e => Q (Throw e) w1 l1
    end) ->
  runs (bind m k) w Q.
Proof.
  intros [r [w1 [l1 [Hm [Hl H]]]]]. unfold runs, bind. rewrite Hm.
  destruct r as [a|e].
  - destruct H as [r' [w2 [l2 [Hk [Hl2 HQ]]]]].
    exists r', w2, (l1 ++ l2). split; [exact Hk|]. split; [|exact HQ].
    rewrite Hl2, Hl, app_assoc. reflexivity.
  - exists (Throw e), w1, l1. split; [reflexivity|]. split; assumption.
Qed.

Lemma runs_tryCatch (m : M A) (h : jsError -> M A) w
      (Q : Completion A -> World -> list LogLine -> Prop) :
  runs m w (fun r w1 l1 =>
    match r with
    | Normal a => Q (Normal a) w1 l1
    | Throw e => runs (h e) w1 (fun r' w2 l2 => Q r' w2 (l1 ++ l2))
    end) ->
  runs (tryCatch m h) w Q.
Proof.
  intros [r [w1 [l1 [Hm [Hl H]]]]]. unfold runs, tryCatch. rewrite Hm.
  destruct r as [a|e].
  - exists (Normal a), w1, l1. split; [reflexivity|]. split; assumption.
  - destruct H as [r' [w2 [l2 [Hk [Hl2 HQ]]]]].
    exists r', w2, (l1 ++ l2). split; [exact Hk|]. split; [|exact HQ].
    rewrite Hl2, Hl, app_assoc. reflexivity.
Qed.

Lemma runs_ret (a : A) w (Q : Completion A -> World -> list LogLine -> Prop) :
  Q (Normal a) w [] -> runs (ret a) w Q.
Proof.
  intros H. exists (Normal a), w, []. split; [reflexivity|].
  split; [rewrite app_nil_r; reflexivity | exact H].
Qed.

Lemma runs_throw (e : jsError) w
      (Q : Completion A -> World -> list LogLine -> Prop) :
  Q (Throw e) w [] -> runs (throw e) w Q.
Proof.
  intros H. exists (Throw e), w, []. split; [reflexivity|].
  split; [rewrite app_nil_r; reflexivity | exact H].
Qed.

Lemma runs_logs (m : M A) w a
      (Q : Completion A -> World -> list LogLine -> Prop) :
  logsOnly m w a -> (forall ls, Q (Normal a) (appendLog w ls) ls) ->
  runs m w Q.
Proof.
  intros [ls H] HQ. exists (Normal a), (appendLog w ls), ls.
  split; [exact H|]. split; [reflexivity | apply HQ].
Qed.

Lemma runs_weaken (m : M A) w
      (Q Q' : Completion A -> World -> list LogLine -> Prop) :
  runs m w Q -> (forall r w' ls, Q r w' ls -> Q' r w' ls) -> runs m w Q'.
Proof.
  intros [r [w' [ls [H [Hl HQ]]]]] Himp. exists r, w', ls.
  split; [exact H|]. split; [exact Hl | auto].
Qed.

Lemma runs_result (m : M A) w (P : Completion A -> World -> Prop) :
  runs m w (fun r w' _ => P r w') -> P (fst (m w)) (snd (m w)).
Proof. intros [r [w' [ls [-> [_ H]]]]]. exact H. Qed.
End Runs.

Lemma runs_info l w (Q : Completion unit -> World -> list LogLine -> Prop) :
  Q (Normal tt) (appendLog w [l]) [l] -> runs (info l) w Q.
Proof.
  intros H. exists (Normal tt), (appendLog w [l]), [l].
  split; [reflexivity|]. split; [reflexivity | exact H].
Qed.

Lemma runs_setScanUrl url w
      (Q : Completion unit -> World -> list LogLine -> Prop) :
  Q (Normal tt)
    {| sidecar := sidecar w; resultFile := resultFile w;
       resultWritable := resultWritable w; scanUrl := Some url;
       failed := failed w; log := log w |} [] ->
  runs (setScanUrl url) w Q.
Proof.
  intros H. eexists. eexists. exists []. split; [reflexivity|].
  split; [cbn [log]; rewrite app_nil_r; reflexivity | exact H].
Qed.

Lemma runs_setFailed w
      (Q : Completion unit -> World -> list LogLine -> Prop) :
  Q (Normal tt)
    {| sidecar := sidecar w; resultFile := resultFile w;
       resultWritable := resultWritable w; scanUrl := scanUrl w;
       failed := true; log := log w ++ [ScanFailed] |} [ScanFailed] ->
  runs setFailed w Q.
Proof.
  intros H. eexists. eexists. exists [ScanFailed]. split; [reflexivity|].
  split; [reflexivity | exact H].
Qed.

Lemma runs_saveResultFile data w
      (Q : Completion unit -> World -> list LogLine -> Prop) :
  (resultWritable w = true ->
   Q (Normal tt) (appendLog (written data w) [FileSaved]) [FileSaved]) ->
  (resultWritable w = false ->
   Q (Normal tt) (appendLog w [FileWriteError]) [FileWriteError]) ->
  runs (saveResultFile data) w Q.
Proof.
  unfold runs, saveResultFile, tryCatch, bind, writeResultFile, info, written.
  destruct (resultWritable w) eqn:E; intros Hyes Hno.
  - eexists. eexists. exists [FileSaved]. split; [reflexivity|].
    split; [reflexivity | apply Hyes; reflexivity].
  - eexists. eexists. exists [FileWriteError]. split; [reflexivity|].
    split; [reflexivity | apply Hno; reflexivity].
Qed.

Lemma runs_readResultFile w
      (Q : Completion (option jsstring) -> World -> list LogLine -> Prop) :
  Q (Normal (resultFile w)) w [] -> runs readResultFile w Q.
Proof.
  intros H. eexists. eexists. exists []. split; [reflexivity|].
  split; [rewrite app_nil_r; reflexivity | exact H].
Qed.

Lemma runs_scannerWrites options p w
      (Q : Completion unit -> World -> list LogLine -> Prop) :
  Q (Normal tt)
    {| sidecar := sidecar (afterScanner options p w);
       resultFile := resultFile w; resultWritable := resultWritable w;
       scanUrl := scanUrl w; failed := failed w; log := log w |} [] ->
  runs (scannerWrites options p) w Q.
Proof.
  intros H. eexists. eexists. exists []. split; [reflexivity|].
  unfold afterScanner, scannerWrites in *. cbn [snd] in H.
  destruct (createIssues options); [destruct (jsonReport p)|];
    destruct w as [sc rf rw su fl lg];
    cbn [sidecar log resultFile resultWritable scanUrl failed] in *;
    (split; [rewrite app_nil_r; reflexivity | exact H]).
Qed.

Lemma runs_uploadArtifact env file w
      (Q : Completion unit -> World -> list LogLine -> Prop) :
  (uploadOk env = true ->
   Q (Normal tt)
     (appendLog (appendLog w [StoringArtifact (js file)])
                [ArtifactUploaded (js file)])
     [StoringArtifact (js file); ArtifactUploaded (js file)]) ->
  (uploadOk env = false ->
   Q (Throw SystemError) (appendLog w [StoringArtifact (js file)])
     [StoringArtifact (js file)]) ->
  runs (uploadArtifact env file) w Q.
Proof.
  intros Hyes Hno. unfold uploadArtifact.
  apply runs_bind, runs_info. cbv beta iota.
  destruct (uploadOk env).
  - apply runs_info. apply Hyes. reflexivity.
  - apply runs_throw. rewrite app_nil_r. apply Hno. reflexivity.
Qed.

Lemma runs_decoratePR env body w
      (Q : Completion unit -> World -> list LogLine -> Prop) :
  (prOk env = true -> Q (Normal tt) w []) ->
  (prOk env = false ->
   Q (Throw TypeError) (appendLog w [OnPullRequest]) [OnPullRequest]) ->
  (prOk env = true ->
   forall l, Q (Normal tt) (appendLog (appendLog w [OnPullRequest]) [l])
               [OnPullRequest; l]) ->
  runs (decoratePR env body) w Q.
Proof.
  unfold decoratePR, when, prOk. intros Hno Hrepo Hyes.
  destruct (isPR env); cbn [negb orb] in *.
  - apply runs_bind, runs_info. cbv beta iota.
    destruct (repository env) as [r|].
    + destruct (commentOk env); apply runs_info; apply Hyes; reflexivity.
    + apply runs_throw. rewrite app_nil_r. apply Hrepo; reflexivity.
  - apply runs_ret. apply Hno. reflexivity.
Qed.

Lemma follows_here (x : LogLine) (P : list LogLine -> Prop) after :
  P after -> follows x P (x :: after).
Proof. intros H. exists [], after. split; [reflexivity | exact H]. Qed.

Lemma follows_cons (x y : LogLine) (P : list LogLine -> Prop) l :
  follows x P l -> follows x P (y :: l).
Proof.
  intros [b [a [-> H]]]. exists (y :: b), a. split; [reflexivity | exact H].
Qed.

Lemma follows_app (x : LogLine) (P : list LogLine -> Prop) l1 l2 :
  follows x P l2 -> follows x P (l1 ++ l2).
Proof.
  intros [b [a [-> H]]]. exists (l1 ++ b), a.
  split; [apply app_assoc | exact H].
Qed.

Lemma last_here (x : LogLine) : exists l, [x] = l ++ [x].
Proof. exists []. reflexivity. Qed.

Lemma last_cons (x y : LogLine) l :
  (exists l', l = l' ++ [x]) -> exists l', y :: l = l' ++ [x].
Proof. intros [l' ->]. exists (y :: l'). reflexivity. Qed.

Lemma last_app (x : LogLine) l1 l2 :
  (exists l', l2 = l' ++ [x]) -> exists l', l1 ++ l2 = l' ++ [x].
Proof. intros [l' ->]. exists (l1 ++ l'). apply app_assoc. Qed.

Lemma urlAfter_urlFor (text : jsstring) (w : World) (before : option jsstring) :
  urlAfter text w before
  = match urlFor (sidecar w) text with Some url => Some url | None => before end.
Proof. unfold urlAfter. rewrite extractScanUrl_value. reflexivity. Qed.

Lemma afterScanner_appendLog (options : Options) (p : ProcessRun) (w : World)
      (ls : list LogLine) :
  sidecar (afterScanner options p (appendLog w ls))
  = sidecar (afterScanner options p w).
Proof.
  unfold afterScanner, scannerWrites. cbn [snd].
  destruct (createIssues options); [destruct (jsonReport p)|]; reflexivity.
Qed.

Lemma truthy_text (s : jsstring) : (if nonEmpty s then s else []) = s.
Proof. destruct s; reflexivity. Qed.

Ltac wp_step :=
  lazymatch goal with
  | |- runs (bind _ _) _ _ => apply runs_bind
  | |- runs (info _) _ _ => apply runs_info
  | |- runs (ret _) _ _ => apply runs_ret
  | |- runs (throw _) _ _ => apply runs_throw
  | |- runs (setScanUrl _) _ _ => apply runs_setScanUrl
  | |- runs setFailed _ _ => apply runs_setFailed
  | |- runs readResultFile _ _ => apply runs_readResultFile
  | |- runs (scannerWrites _ _) _ _ => apply runs_scannerWrites
  | |- runs (saveResultFile _) _ _ =>
      apply runs_saveResultFile; intros ?Hw;
      cbn [sidecar resultFile resultWritable scanUrl failed log appendLog
             written] in *
  | |- runs (uploadArtifact _ _) _ _ =>
      apply runs_uploadArtifact; intros ?Hup
  | |- runs (decoratePR _ _) _ _ =>
      apply runs_decoratePR; [intros ?Hpr | intros ?Hpr | intros ?Hpr ?l]
  | |- runs (collect _ _ _ _) _ _ =>
      eapply runs_logs; [apply collect_logsOnly | intros ?]
  | |- runs (extractScanUrl _) _ _ =>
      eapply runs_logs; [apply extractScanUrl_logsOnly | intros ?]
  end; cbv beta iota zeta.

Ltac wp := repeat wp_step.

Ltac world := cbn [sidecar resultFile resultWritable scanUrl failed log
                     appendLog written].

Ltac use_facts :=
  repeat match goal with
         | H : _ = true |- _ => rewrite H
         | H : _ = false |- _ => rewrite H
         end.

Ltac in_lines :=
  repeat first [left; reflexivity | right | apply in_or_app; right].

Ltac follows_lines :=
  repeat first [apply follows_here; in_lines | apply follows_cons
               | apply follows_app].

Ltac last_line :=
  repeat first [apply last_here | apply last_cons | apply last_app].

Ltac url_case sc text Eurl :=
  destruct (urlFor sc text) as [?url|] eqn:Eurl; try unfold ifUrl;
  [rewrite (isUrl_nonEmpty _ (urlFor_valid _ _ _ Eurl))|].

Ltac outcome_facts :=
  cbn [sidecar resultFile resultWritable scanUrl failed log appendLog written]
    in *;
  cbn [app]; rewrite ?app_nil_r, <- ?app_assoc; cbn [app];
  unfold saveLine; use_facts; cbn [andb orb negb].

Lemma runShellText_outcome (env : Env) (options : Options) (p : ProcessRun)
      (w : World) :
  let combined := stdoutOf p ++ stderrOf p in
  let w1 := afterScanner options p w in
  runs (runShellText env options p) w (fun r w' ls =>
    r = (if uploadOk env
         then if prOk env then Normal tt else Throw TypeError
         else Throw SystemError) /\
    sidecar w' = sidecar w1 /\
    scanUrl w' = match urlFor (sidecar w1) combined with
                 | Some url => Some url
                 | None => urlAfter (fileOutputOf combined w) w1 (scanUrl w)
                 end /\
    failed w' = failed w ||
                (uploadOk env && prOk env &&
                 breaksBuild options (exitCode p)) /\
    resultFile w' = (if resultWritable w then Some combined
                     else resultFile w) /\
    (uploadOk env = true -> prOk env = true ->
     exists l, ls = l ++ [Finished]) /\
    follows (saveLine w) (In (StoringArtifact (js "scaResults.txt"))) ls /\
    (uploadOk env = true ->
     follows (saveLine w) (In (ArtifactUploaded (js "scaResults.txt"))) ls)).
Proof.
  intros combined w1. rewrite urlAfter_urlFor. unfold fileOutputOf.
  unfold runShellText. wp.
  change (stdoutText (chunks p)) with (stdoutOf p).
  change (stderrText (chunks p)) with (stderrOf p).
  cbn [app]. wp. world. fold combined. fold w1.
  url_case (sidecar w1) combined Eurl.
  - wp; cbn [negb when]; wp; unfold when;
      destruct (breaksBuild options (exitCode p)); wp; outcome_facts;
      (split; [reflexivity|]); (split; [reflexivity|]);
      (split; [reflexivity|]);
      (split; [rewrite ?orb_true_r, ?orb_false_r; reflexivity|]);
      (split; [reflexivity|]);
      (split; [intros ? ?; try discriminate; last_line|]);
      (split; [follows_lines|]);
      intros ?; try discriminate; follows_lines.
  - wp. unfold logSample.
    destruct (indexOf (js "Full Report") combined); wp; cbn [negb when]; wp;
      world; use_facts; cbv beta iota;
      match goal with
      | |- context [match urlFor ?sc ?t with _ => _ end] =>
          url_case sc t Eurl2
      end; wp; unfold when;
      destruct (breaksBuild options (exitCode p)); wp; outcome_facts;
      (split; [reflexivity|]); (split; [reflexivity|]);
      (split; [reflexivity|]);
      (split; [rewrite ?orb_true_r, ?orb_false_r; reflexivity|]);
      (split; [reflexivity|]);
      (split; [intros ? ?; try discriminate; last_line|]);
      (split; [follows_lines|]);
      intros ?; try discriminate; follows_lines.
Qed.

Lemma runShellIssues_outcome (env : Env) (options : Options) (p : ProcessRun)
      (w : World) :
  let combined := stdoutOf p ++ stderrOf p in
  let w1 := afterScanner options p w in
  runs (runShellIssues env options p) w (fun r w' ls =>
    r = (if prOk env
         then if uploadOk env then Normal tt else Throw SystemError
         else Throw TypeError) /\
    sidecar w' = sidecar w1 /\
    scanUrl w' = urlAfter combined w1 (scanUrl w) /\
    failed w' = failed w || (prOk env && positive (exitCode p)) /\
    resultFile w' = resultFile w /\
    (uploadOk env = true -> prOk env = true ->
     exists l, ls = l ++ [Finished]) /\
    (prOk env = true -> In (StoringArtifact (js "scaResults.json")) ls) /\
    (prOk env = true -> uploadOk env = true ->
     In (ArtifactUploaded (js "scaResults.json")) ls)).
Proof.
  intros combined w1. rewrite urlAfter_urlFor.
  unfold runShellIssues. wp.
  change (stdoutText (chunks p)) with (stdoutOf p).
  change (stderrText (chunks p)) with (stderrOf p).
  cbn [app]. wp. world. rewrite !afterScanner_appendLog.
  fold combined. fold w1.
  url_case (sidecar w1) combined Eurl; wp; unfold when;
    destruct (positive (exitCode p)); wp; outcome_facts;
    rewrite ?afterScanner_appendLog;
    (split; [reflexivity|]); (split; [reflexivity|]);
    (split; [reflexivity|]);
    (split; [rewrite ?orb_true_r, ?orb_false_r; reflexivity|]);
    (split; [reflexivity|]);
    (split; [intros ? ?; try discriminate; last_line|]);
    (split; [intros ?; try discriminate; in_lines|]);
    intros ? ?; try discriminate; in_lines.
Qed.

Lemma runWindowsIssues_outcome (env : Env) (options : Options)
      (p : ProcessRun) (w : World) :
  let w1 := afterScanner options p w in
  runs (runWindowsIssues env options p) w (fun r w' ls =>
    r = (if prOk env
         then if uploadOk env then Normal tt else Throw SystemError
         else Throw TypeError) /\
    sidecar w' = sidecar w1 /\
    scanUrl w' = match execSync p with
                 | inl output => urlAfter output w1 (scanUrl w)
                 | inr _ => scanUrl w
                 end /\
    failed w' = failed w || breaksBuild options (execStatus p) /\
    resultFile w' = resultFile w /\
    (uploadOk env = true -> prOk env = true ->
     exists l, ls = l ++ [Finished]) /\
    (prOk env = true -> In (StoringArtifact (js "scaResults.json")) ls) /\
    (prOk env = true -> uploadOk env = true ->
     In (ArtifactUploaded (js "scaResults.json")) ls)).
Proof.
  intros w1. unfold execStatus, runWindowsIssues. wp.
  destruct (execSync p) as [output|error]; [rewrite urlAfter_urlFor|].
  - wp. world. rewrite !afterScanner_appendLog. fold w1.
    url_case (sidecar w1) output Eurl; wp; outcome_facts;
      rewrite ?afterScanner_appendLog;
      unfold breaksBuild; cbn [positive Z.ltb Z.compare andb];
      (split; [reflexivity|]); (split; [reflexivity|]);
      (split; [reflexivity|]);
      (split; [rewrite ?orb_true_r, ?orb_false_r; reflexivity|]);
      (split; [reflexivity|]);
      (split; [intros ? ?; try discriminate; last_line|]);
      (split; [intros ?; try discriminate; in_lines|]);
      intros ? ?; try discriminate; in_lines.
  - unfold when at 1.
    destruct (breaksBuild options (status error)); wp; world;
      match goal with
      | |- context [urlFor ?sc []] => change (urlFor sc []) with (@None jsstring)
      end;
      unfold ifUrl; wp; outcome_facts; rewrite ?afterScanner_appendLog;
      (split; [reflexivity|]); (split; [reflexivity|]);
      (split; [reflexivity|]);
      (split; [rewrite ?orb_true_r, ?orb_false_r; reflexivity|]);
      (split; [reflexivity|]);
      (split; [intros ? ?; try discriminate; last_line|]);
      (split; [intros ?; try discriminate; in_lines|]);
      intros ? ?; try discriminate; in_lines.
Qed.

Lemma runWindowsText_outcome (env : Env) (options : Options) (p : ProcessRun)
      (w : World) :
  let w1 := afterScanner options p w in
  runs (runWindowsText env options p) w (fun r w' ls =>
    r = (if uploadOk env
         then if prOk env then Normal tt else Throw TypeError
         else Throw SystemError) /\
    sidecar w' = sidecar w1 /\
    scanUrl w' = match execSync p with
                 | inl output => urlAfter output w1 (scanUrl w)
                 | inr error =>
                     urlAfter (stdout error ++ stderr error) w1 (scanUrl w)
                 end /\
    failed w' = failed w || breaksBuild options (execStatus p) /\
    resultFile w' = (if resultWritable w
                     then Some (match execSync p with
                                | inl output => output
                                | inr error => stdout error
                                end)
                     else resultFile w) /\
    (uploadOk env = true -> prOk env = true ->
     exists l, ls = l ++ [Finished]) /\
    follows (saveLine w) (In (StoringArtifact (js "scaResults.txt"))) ls /\
    (uploadOk env = true ->
     follows (saveLine w) (In (ArtifactUploaded (js "scaResults.txt"))) ls)).
Proof.
  intros w1. unfold execStatus, runWindowsText. wp.
  destruct (execSync p) as [output|error]; rewrite urlAfter_urlFor.
  - wp. world. fold w1.
    url_case (sidecar w1) output Eurl; wp; outcome_facts;
      unfold breaksBuild; cbn [positive Z.ltb Z.compare andb];
      (split; [reflexivity|]); (split; [reflexivity|]);
      (split; [reflexivity|]);
      (split; [rewrite ?orb_true_r, ?orb_false_r; reflexivity|]);
      (split; [reflexivity|]);
      (split; [intros ? ?; try discriminate; last_line|]);
      (split; [follows_lines|]);
      intros ?; try discriminate; follows_lines.
  - rewrite !truthy_text. unfold when at 1.
    destruct (breaksBuild options (status error)); wp; world; fold w1;
      url_case (sidecar w1) (stdout error ++ stderr error) Eurl; wp;
      outcome_facts;
      (split; [reflexivity|]); (split; [reflexivity|]);
      (split; [reflexivity|]);
      (split; [rewrite ?orb_true_r, ?orb_false_r; reflexivity|]);
      (split; [reflexivity|]);
      (split; [intros ? ?; try discriminate; last_line|]);
      (split; [follows_lines|]);
      intros ?; try discriminate; follows_lines.
Qed.

Lemma follows_in_app (x y : LogLine) l l' :
  follows x (In y) l -> follows x (In y) (l ++ l').
Proof.
  intros [b [a [-> H]]]. exists b, (a ++ l').
  split; [rewrite <- app_assoc; reflexivity | apply in_or_app; left; exact H].
Qed.

Lemma fileOutputOf_appendLog (text : jsstring) (w : World) (ls : list LogLine) :
  fileOutputOf text (appendLog w ls) = fileOutputOf text w.
Proof. reflexivity. Qed.

Ltac branch_facts :=
  cbv beta zeta;
  intros ?r ?w' ?ls (Hr & Hs & Hu & Hf & Hfile & Hfin & Hstore & Hupload);
  rewrite ?urlAfter_urlFor in *;
  cbn [sidecar resultFile resultWritable scanUrl failed log appendLog] in *;
  rewrite ?afterScanner_appendLog, ?fileOutputOf_appendLog in *.

(** What a run of [runAction] leaves behind, in full. *)
Lemma runAction_outcome (env : Env) (options : Options) (p : ProcessRun)
      (w : World) :
  runs (runAction env options p) w (fun r w' ls =>
    r = completionOutcome env options /\
    sidecar w' = sidecar (afterScanner options p w) /\
    scanUrl w' = scanUrlOutcome env options p w /\
    failed w' = failedOutcome env options p w /\
    resultFile w' = resultFileOutcome env options p w /\
    (failure env options = None -> exists l, ls = l ++ [Finished]) /\
    (isWindows env = true -> forall e, failure env options = Some e ->
     exists l, ls = l ++ [RunFailed e]) /\
    (createIssues options = false ->
     follows (saveLine w) (In (StoringArtifact (js "scaResults.txt"))) ls /\
     (uploadOk env = true ->
      follows (saveLine w) (In (ArtifactUploaded (js "scaResults.txt"))) ls)) /\
    (createIssues options = true -> prOk env = true ->
     In (StoringArtifact (js "scaResults.json")) ls /\
     (uploadOk env = true ->
      In (ArtifactUploaded (js "scaResults.json")) ls))).
Proof.
  unfold runAction, completionOutcome, failure, scanUrlOutcome, failedOutcome,
    resultFileOutcome. cbv zeta. rewrite ?urlAfter_urlFor.
  destruct (isWindows env) eqn:Hos.
  - apply runs_tryCatch. wp_step. wp_step.
    destruct (createIssues options) eqn:Hci; cbn [orb].
    + eapply runs_weaken; [apply runWindowsIssues_outcome|]. branch_facts.
      destruct (prOk env) eqn:Hpr; destruct (uploadOk env) eqn:Hup;
        subst r; cbn [negb]; try apply runs_info;
        cbn [sidecar resultFile resultWritable scanUrl failed log appendLog];
        (split; [reflexivity|]); (split; [exact Hs|]);
        (split; [rewrite Hu; destruct (execSync p);
                 rewrite ?urlAfter_urlFor, ?afterScanner_appendLog;
                 reflexivity|]);
        (split; [exact Hf|]); (split; [exact Hfile|]);
        (split; [intros ?; try discriminate; cbn [app]; apply last_cons;
                 apply Hfin; reflexivity|]);
        (split; [intros _ e He; try discriminate; injection He as <-;
                 cbn [app]; last_line|]);
        (split; [discriminate|]);
        intros _ ?; try discriminate;
        (split; [|intros ?; try discriminate]);
        cbn [app]; right; rewrite ?in_app_iff; auto.
    + eapply runs_weaken; [apply runWindowsText_outcome|]. branch_facts.
      change (saveLine (appendLog w [InfoText (js "Start command")]))
        with (saveLine w) in *.
      destruct (prOk env) eqn:Hpr; destruct (uploadOk env) eqn:Hup;
        subst r; cbn [negb]; try apply runs_info;
        cbn [sidecar resultFile resultWritable scanUrl failed log appendLog];
        (split; [reflexivity|]); (split; [exact Hs|]);
        (split; [rewrite Hu; destruct (execSync p);
                 rewrite ?urlAfter_urlFor, ?afterScanner_appendLog;
                 reflexivity|]);
        (split; [exact Hf|]);
        (split; [rewrite Hfile; destruct (resultWritable w); reflexivity|]);
        (split; [intros ?; try discriminate; cbn [app]; apply last_cons;
                 apply Hfin; reflexivity|]);
        (split; [intros _ e He; try discriminate; injection He as <-;
                 cbn [app]; last_line|]);
        (split; [|discriminate]);
        intros _;
        (split; [|intros ?; try discriminate]);
        cbn [app]; apply follows_cons; try apply follows_in_app; auto.
  - wp_step. apply runs_tryCatch. wp_step.
    destruct (createIssues options) eqn:Hci; cbn [orb].
    + eapply runs_weaken; [apply runShellIssues_outcome|]. branch_facts.
      destruct (prOk env) eqn:Hpr; destruct (uploadOk env) eqn:Hup;
        subst r; cbn [negb andb];
        (split; [reflexivity|]); (split; [exact Hs|]);
        (split; [exact Hu|]);
        (split; [rewrite Hf; rewrite ?orb_false_r; reflexivity|]);
        (split; [exact Hfile|]);
        (split; [intros ?; try discriminate; cbn [app]; apply last_cons;
                 apply Hfin; reflexivity|]);
        (split; [discriminate|]);
        (split; [discriminate|]);
        intros _ ?; try discriminate;
        (split; [|intros ?; try discriminate]);
        cbn [app]; right; auto.
    + eapply runs_weaken; [apply runShellText_outcome|]. branch_facts.
      change (saveLine (appendLog w [InfoText (js "Start command")]))
        with (saveLine w) in *.
      rewrite extractScanUrl_value.
      destruct (prOk env) eqn:Hpr; destruct (uploadOk env) eqn:Hup;
        subst r; cbn [negb andb];
        (split; [reflexivity|]); (split; [exact Hs|]);
        (split; [rewrite Hu;
                 destruct (urlFor (sidecar (afterScanner options p w))
                                  (stdoutOf p ++ stderrOf p));
                 rewrite ?urlAfter_urlFor; reflexivity|]);
        (split; [rewrite Hf; rewrite ?orb_false_r; reflexivity|]);
        (split; [rewrite Hfile; destruct (resultWritable w); reflexivity|]);
        (split; [intros ?; try discriminate; cbn [app]; apply last_cons;
                 apply Hfin; reflexivity|]);
        (split; [discriminate|]);
        (split; [|discriminate]);
        intros _;
        (split; [|intros ?; try discriminate]);
        cbn [app]; apply follows_cons; auto.
Qed.

Lemma execSync_failure (p : ProcessRun) :
  exitCode p <> Some 0%Z -> exists error, execSync p = inr error.
Proof.
  intros Hc. unfold execSync.
  destruct (bufferExceeded p) as [error|]; [eexists; reflexivity|].
  destruct (exitCode p) as [[|c|c]|]; try (eexists; reflexivity).
  congruence.
Qed.


Lemma afterScanner_without (options : Options) (p : ProcessRun) (w : World) :
  createIssues options = false -> afterScanner options p w = w.
Proof.
  intros Hci. unfold afterScanner, scannerWrites. rewrite Hci. reflexivity.
Qed.

Lemma runAction_scanUrl (env : Env) (options : Options) (p : ProcessRun)
      (w : World) :
  scanUrl (snd (runAction env options p w)) = scanUrlOutcome env options p w.
Proof.
  apply (runs_result (runAction env options p) w (fun _ w' =>
    scanUrl w' = scanUrlOutcome env options p w)).
  eapply runs_weaken; [apply runAction_outcome|].
  cbv beta. intros r w' ls H. apply H.
Qed.

Lemma runAction_failed (env : Env) (options : Options) (p : ProcessRun)
      (w : World) :
  failed (snd (runAction env options p w)) = failedOutcome env options p w.
Proof.
  apply (runs_result (runAction env options p) w (fun _ w' =>
    failed w' = failedOutcome env options p w)).
  eapply runs_weaken; [apply runAction_outcome|].
  cbv beta. intros r w' ls H. apply H.
Qed.

Lemma runAction_resultFile (env : Env) (options : Options) (p : ProcessRun)
      (w : World) :
  resultFile (snd (runAction env options p w))
  = resultFileOutcome env options p w.
Proof.
  apply (runs_result (runAction env options p) w (fun _ w' =>
    resultFile w' = resultFileOutcome env options p w)).
  eapply runs_weaken; [apply runAction_outcome|].
  cbv beta. intros r w' ls H. apply H.
Qed.

(** C7, at the failing input: on Windows with [createIssues] set, a scanner
    that prints a report line to standard error and exits with status 2
    leaves the scan-url output unset, because the extractor is called with
    the empty text; the line is there to be found, and the three other
    branches find it. *)
Lemma failed_scan_on_windows_with_issues_loses_the_url :
  let url := js "https://scan.example.com/r/123" in
  let start := world0 Missing in
  fst (extractScanUrl (stdoutOf scenarioE ++ stderrOf scenarioE) start)
    = Normal (Some url) /\
  scanUrl (snd (runAction onWindows withIssues scenarioE start)) = None /\
  In OutputEmpty (log (snd (runAction onWindows withIssues scenarioE start))) /\
  scanUrl (snd (runAction onWindows withoutIssues scenarioE start)) = Some url /\
  scanUrl (snd (runAction onLinux withIssues scenarioE start)) = Some url /\
  scanUrl (snd (runAction onLinux withoutIssues scenarioE start)) = Some url.
Proof.
  cbv zeta.
  split; [vm_compute; reflexivity|].
  split; [vm_compute; reflexivity|].
  split; [vm_compute; tauto|].
  split; [vm_compute; reflexivity|].
  split; vm_compute; reflexivity.
Qed.

(** On that branch a scanner that does not exit with 0 never changes the
    scan-url output, whatever it printed. *)
Lemma failed_scan_on_windows_with_issues_never_sets_the_url
      (env : Env) (options : Options) (p : ProcessRun) (w : World) :
  isWindows env = true ->
  createIssues options = true ->
  exitCode p <> Some 0%Z ->
  scanUrl (snd (runAction env options p w)) = scanUrl w.
Proof.
  intros Hos Hci Hcode. rewrite runAction_scanUrl.
  unfold scanUrlOutcome. rewrite Hos, Hci.
  destruct (execSync_failure p Hcode) as [error ->]. reflexivity.
Qed.




(* ================================================================== *)
(** ** More on the collectors *)

Lemma collectors_plain : forallb plainName collectors = true.
Proof. vm_compute. reflexivity. Qed.

Lemma collector_plain (name : jsstring) :
  In name collectors -> plainName name = true.
Proof.
  intros H. pose proof collectors_plain as Hall.
  rewrite forallb_forall in Hall. apply Hall. exact H.
Qed.

Section MoreCollectorFacts.
Variable toLowerCase : jsstring -> jsstring.
Hypothesis toLowerCase_empty : toLowerCase [] = [].

Lemma cleanCollectors_filter (inputArr : list jsstring) :
  cleanCollectors toLowerCase inputArr
  = filter (includes collectors) (map (normalized toLowerCase) inputArr).
Proof. unfold cleanCollectors. rewrite cleanStep_fold; auto. Qed.

(** X1: cleaning a concatenation is cleaning each part, and cleaning never
    makes an array longer. *)
Theorem cleanCollectors_app (a b : list jsstring) :
  cleanCollectors toLowerCase (a ++ b)
  = cleanCollectors toLowerCase a ++ cleanCollectors toLowerCase b /\
  List.length (cleanCollectors toLowerCase a) <= List.length a.
Proof.
  rewrite !cleanCollectors_filter. split.
  - rewrite map_app, filter_app. reflexivity.
  - rewrite <- (length_map (normalized toLowerCase) a). apply filter_length_le.
Qed.

Hypothesis toLowerCase_allowlist :
  forall name, In name collectors -> toLowerCase name = name.

Lemma normalized_allowed (name : jsstring) :
  In name collectors -> normalized toLowerCase name = name.
Proof.
  intros H. unfold normalized.
  pose proof (collector_plain name H) as Hp. unfold plainName in Hp.
  apply andb_true_iff in Hp. destruct Hp as [Hp _].
  apply andb_true_iff in Hp. destruct Hp as [Hp _].
  apply eqb_eq in Hp. rewrite Hp. apply toLowerCase_allowlist. exact H.
Qed.

(** X2: when lower-casing leaves the allowlist names as they are, cleaning a
    cleaned array changes nothing. *)
Theorem cleanCollectors_idempotent (inputArr : list jsstring) :
  cleanCollectors toLowerCase (cleanCollectors toLowerCase inputArr)
  = cleanCollectors toLowerCase inputArr.
Proof.
  rewrite (cleanCollectors_filter (cleanCollectors toLowerCase inputArr)).
  assert (Hall : Forall (fun name => In name collectors)
                        (cleanCollectors toLowerCase inputArr)).
  { rewrite cleanCollectors_filter. apply Forall_forall. intros n Hn.
    apply filter_In in Hn. apply includes_In. tauto. }
  induction Hall as [|x l Hx Hl IH]; [reflexivity|].
  cbn [map filter]. rewrite (normalized_allowed x Hx).
  apply includes_In in Hx. rewrite Hx. f_equal. exact IH.
Qed.
End MoreCollectorFacts.

Lemma asciiLowerCase_allowlist (name : jsstring) :
  In name collectors -> asciiLowerCase name = name.
Proof.
  intros H. repeat (destruct H as [<- | H]; [reflexivity|]). destruct H.
Qed.

Lemma split_plain (sep : jschar) (x : jsstring) :
  forallb (fun c => negb (c =? sep)%N) x = true -> split sep x = [x].
Proof.
  induction x as [|c x IH]; simpl; intros H; [reflexivity|].
  apply andb_true_iff in H. destruct H as [Hc H].
  apply negb_true_iff in Hc. rewrite Hc, (IH H). reflexivity.
Qed.

Lemma split_app_sep (sep : jschar) (x t : jsstring) :
  forallb (fun c => negb (c =? sep)%N) x = true ->
  split sep (x ++ sep :: t) = x :: split sep t.
Proof.
  induction x as [|c x IH]; simpl; intros H.
  - rewrite N.eqb_refl. reflexivity.
  - apply andb_true_iff in H. destruct H as [Hc H].
    apply negb_true_iff in Hc. rewrite Hc, (IH H). reflexivity.
Qed.

Lemma split_join (names : list jsstring) :
  names <> [] ->
  Forall (fun n => forallb (fun c => negb (c =? 44)%N) n = true) names ->
  split 44%N (join names) = names.
Proof.
  intros Hne Hall. revert Hne.
  induction Hall as [|x l Hx Hl IH]; intros Hne; [contradiction|].
  destruct l as [|y l].
  - simpl. apply split_plain. exact Hx.
  - change (join (x :: y :: l)) with (x ++ 44%N :: join (y :: l)).
    rewrite split_app_sep by exact Hx. f_equal. apply IH. discriminate.
Qed.

Section FlagFacts.
Variable toLowerCase : jsstring -> jsstring.
Hypothesis toLowerCase_empty : toLowerCase [] = [].

(** X4: the comma-joined list of a collector flag splits back, at the commas,
    into exactly the cleaned names: no allowlist name holds a comma. *)
Theorem collectors_flag_round_trip (inputArr : list jsstring) :
  cleanCollectors toLowerCase inputArr <> [] ->
  split 44%N (join (cleanCollectors toLowerCase inputArr))
  = cleanCollectors toLowerCase inputArr.
Proof.
  intros Hne. apply split_join; [exact Hne|].
  rewrite cleanCollectors_filter by exact toLowerCase_empty.
  apply Forall_forall. intros n Hn. apply filter_In in Hn.
  destruct Hn as [_ Hn]. apply includes_In in Hn.
  pose proof (collector_plain n Hn) as Hp. unfold plainName in Hp.
  apply andb_true_iff in Hp. tauto.
Qed.

(** X3: a collector flag is left out altogether exactly when no entry of the
    option is in the allowlist. *)
Theorem collectors_flag_empty (flag : string) (inputArr : list jsstring) :
  collectorsAttr toLowerCase flag inputArr = [] <->
  (forall input, In input inputArr ->
                 includes collectors (normalized toLowerCase input) = false).
Proof.
  unfold collectorsAttr.
  rewrite (cleanCollectors_filter toLowerCase toLowerCase_empty).
  set (l := map (normalized toLowerCase) inputArr).
  assert (Hiff : filter (includes collectors) l = [] <->
                 forall input, In input inputArr ->
                   includes collectors (normalized toLowerCase input) = false).
  { split.
    - intros Hnil input Hin.
      destruct (includes collectors (normalized toLowerCase input)) eqn:E;
        [|reflexivity].
      assert (Hf : In (normalized toLowerCase input)
                      (filter (includes collectors) l)).
      { apply filter_In. split; [apply in_map; exact Hin | exact E]. }
      rewrite Hnil in Hf. destruct Hf.
    - intros Hall. subst l. clear - Hall.
      induction inputArr as [|x r IH]; [reflexivity|].
      cbn [map filter]. rewrite (Hall x (or_introl eq_refl)).
      apply IH. intros i Hi. apply Hall. right. exact Hi. }
  destruct (filter (includes collectors) l) as [|n ns] eqn:E.
  - cbn. rewrite <- Hiff. tauto.
  - cbn [List.length Nat.ltb Nat.leb]. rewrite <- Hiff. split.
    + intros H. apply (f_equal (@List.length _)) in H.
      rewrite !length_app in H. simpl in H. lia.
    + discriminate.
Qed.
End FlagFacts.

Lemma cleanCollectors_app_example :
  cleanCollectors asciiLowerCase ([js " Maven "; js "nuget"] ++ [js "NPM"])
  = cleanCollectors asciiLowerCase [js " Maven "; js "nuget"]
    ++ cleanCollectors asciiLowerCase [js "NPM"].
Proof.
  exact (proj1 (cleanCollectors_app asciiLowerCase eq_refl
                  [js " Maven "; js "nuget"] [js "NPM"])).
Defined.

Lemma cleanCollectors_idempotent_example :
  cleanCollectors asciiLowerCase
    (cleanCollectors asciiLowerCase [js " Maven "; js "nuget"; js "Go Mod"])
  = cleanCollectors asciiLowerCase [js " Maven "; js "nuget"; js "Go Mod"].
Proof.
  exact (cleanCollectors_idempotent asciiLowerCase eq_refl
           asciiLowerCase_allowlist
           [js " Maven "; js "nuget"; js "Go Mod"]).
Defined.

Lemma collectors_flag_round_trip_example :
  split 44%N (js "go get,npm") = [js "go get"; js "npm"].
Proof.
  apply (collectors_flag_round_trip asciiLowerCase eq_refl
           [js "Go Get"; js "docker"; js " npm"]).
  discriminate.
Defined.

Lemma collectors_flag_empty_example :
  skipCollectorsAttr asciiLowerCase [js "nuget"; js ""; js "cargo"] = [].
Proof.
  apply (proj2 (collectors_flag_empty asciiLowerCase eq_refl
                  "--skip-collectors" [js "nuget"; js ""; js "cargo"])).
  intros input [<- | [<- | [<- | []]]]; reflexivity.
Defined.

(* ================================================================== *)
(** ** More on the extractor *)

(* ---- the phrase is necessary ---- *)
Section Necessary.
Context {A B : Type}.
Implicit Types (k : jsstring -> option A) (h : jsstring -> option B).

Lemma star_mono cls s k h v :
  (forall t u, k t = Some u -> h t <> None) ->
  star cls s k = Some v -> star cls s h <> None.
Proof.
  intros Hk. revert v. induction s as [|x s IH]; intros v; simpl.
  - apply Hk.
  - destruct (classMatches cls x); [|apply Hk].
    destruct (star cls s k) as [u|] eqn:E; simpl.
    + intros _. specialize (IH u eq_refl).
      destruct (star cls s h); [discriminate | congruence].
    + intros H. destruct (star cls s h); [discriminate|]. simpl.
      eapply Hk. eassumption.
Qed.

Lemma matchAtoms_mono atoms :
  forall s k h v,
    (forall t u, k t = Some u -> h t <> None) ->
    matchAtoms atoms s k = Some v -> matchAtoms atoms s h <> None.
Proof.
  induction atoms as [|a atoms IH]; intros s k h v Hk; simpl.
  - apply Hk.
  - destruct a as [c | c | cls].
    + destruct s as [|x s]; [discriminate|].
      destruct (sameChar c x); [eapply IH; eassumption | discriminate].
    + destruct s as [|x s]; [eapply IH; eassumption|].
      destruct (sameChar c x); [|eapply IH; eassumption].
      destruct (matchAtoms atoms s k) as [u|] eqn:E; simpl.
      * intros _. pose proof (IH s k h u Hk E) as Hs.
        destruct (matchAtoms atoms s h); [discriminate | congruence].
      * intros H. destruct (matchAtoms atoms s h); [discriminate|]. simpl.
        eapply IH; eassumption.
    + unfold plus. destruct s as [|x s]; [discriminate|].
      destruct (classMatches cls x); [|discriminate].
      apply star_mono. intros t u. apply IH. exact Hk.
Qed.
End Necessary.

Lemma pattern_needs_phrase (p : regex) (s cap : jsstring) :
  In p patterns -> matchHere p s = Some cap -> matchHere phraseRe s <> None.
Proof.
  intros Hp H. unfold matchHere in *. cbn [head group phraseRe].
  assert (Hhead : exists tl, head p = phrase ++ tl).
  { destruct Hp as [<- | [<- | [<- | [<- | []]]]]; eexists; reflexivity. }
  destruct Hhead as [tl Hhead]. rewrite Hhead, matchAtoms_app in H.
  eapply matchAtoms_mono; [|exact H].
  intros t u _. discriminate.
Qed.

Lemma exec_needs_phrase (p : regex) (s : jsstring) :
  In p patterns -> test phraseRe s = false -> exec p s = None.
Proof.
  intros Hp. unfold test. induction s as [|x s IH]; simpl.
  - destruct (matchHere phraseRe []) eqn:E; [discriminate|]. intros _.
    destruct (matchHere p []) eqn:Ep; [|reflexivity].
    exfalso. eapply pattern_needs_phrase; eassumption.
  - destruct (matchHere phraseRe (x :: s)) eqn:E; [discriminate|].
    destruct (matchHere p (x :: s)) eqn:Ep.
    + intros _. exfalso. eapply pattern_needs_phrase; eassumption.
    + exact IH.
Qed.

(** X5: on a text in which the phrase does not occur no pattern matches: the
    result is the absence value when there is no sidecar file, and on a
    non-empty text it is whatever the sidecar fallback gives. *)
Theorem no_phrase_no_text_url (output : jsstring) (w : World) :
  test phraseRe output = false ->
  (sidecar w = Missing -> fst (extractScanUrl output w) = Normal None) /\
  (nonEmpty output = true ->
   fst (extractScanUrl output w)
   = fst (tryCatch jsonFallback (fun e => info (JsonError e) ;; ret None) w)).
Proof.
  intros Hno.
  assert (Hfirst : firstUrl patterns output = None).
  { apply firstUrl_none. intros p cap Hp Hc.
    rewrite (exec_needs_phrase p output Hp Hno) in Hc. discriminate. }
  rewrite extractScanUrl_value. unfold urlFor. rewrite Hfirst. split.
  - intros ->. destruct (nonEmpty output); reflexivity.
  - intros ->. destruct (jsonFallback_logsOnly w) as [ls ->]. reflexivity.
Qed.

(** X6: a URL found in the text is returned whatever the sidecar file holds. *)
Theorem text_url_wins_over_sidecar (output url : jsstring) (w : World) :
  fst (extractScanUrl output (withSidecar Missing w)) = Normal (Some url) ->
  fst (extractScanUrl output w) = Normal (Some url).
Proof.
  rewrite !extractScanUrl_value. unfold urlFor. cbn [sidecar withSidecar].
  destruct (nonEmpty output); [|discriminate].
  destruct (firstUrl patterns output); [tauto|]. discriminate.
Qed.

(* ---- trimmed ---- *)
Lemma trimStart_fixed_head (s : jsstring) :
  trimStart s = s ->
  match s with x :: _ => isWhiteSpace x = false | [] => True end.
Proof.
  destruct s as [|x s]; [exact (fun _ => I)|]. simpl.
  destruct (isWhiteSpace x); [|reflexivity].
  intros H. destruct (trimStart_suffix s) as [a Ha].
  rewrite H in Ha. apply (f_equal (@List.length _)) in Ha.
  rewrite length_app in Ha. simpl in Ha. lia.
Qed.

Lemma trimStart_idem (s : jsstring) : trimStart (trimStart s) = trimStart s.
Proof.
  induction s as [|x s IH]; [reflexivity|]. simpl.
  destruct (isWhiteSpace x) eqn:E; [exact IH|]. simpl. rewrite E. reflexivity.
Qed.

Lemma trim_idem (s : jsstring) : trim (trim s) = trim s.
Proof.
  unfold trim. set (t := trimStart s).
  assert (Ht : trimStart t = t) by apply trimStart_idem.
  assert (Hs : trimStart (trimEnd t) = trimEnd t).
  { destruct (trimEnd_prefix t) as [r Hr].
    destruct (trimEnd t) as [|x q] eqn:E; [reflexivity|].
    apply trimStart_fixed_head in Ht. rewrite Hr in Ht. simpl in Ht.
    apply trimStart_head. exact Ht. }
  rewrite Hs. unfold trimEnd. rewrite rev_involutive, trimStart_idem.
  reflexivity.
Qed.

Lemma firstUrl_trimmed (ps : list regex) (output url : jsstring) :
  firstUrl ps output = Some url -> trim url = url.
Proof.
  induction ps as [|p ps IH]; simpl; [discriminate|].
  destruct (exec p output) as [cap|]; [|exact IH].
  destruct (nonEmpty cap && isUrl (trim cap)); [|exact IH].
  intros H. injection H as <-. apply trim_idem.
Qed.

(** X7: a URL taken from the text has no whitespace at either end. *)
Theorem text_url_is_trimmed (output url : jsstring) (w : World) :
  sidecar w = Missing ->
  fst (extractScanUrl output w) = Normal (Some url) ->
  trim url = url.
Proof.
  intros Hsc. rewrite extractScanUrl_value, Hsc. unfold urlFor.
  destruct (nonEmpty output); [|discriminate].
  destruct (firstUrl patterns output) as [u|] eqn:E; [|discriminate].
  intros H. injection H as <-. eapply firstUrl_trimmed. eassumption.
Qed.

(* ---- patterns 2 and 4 ---- *)
Local Open Scope N_scope.
Lemma sameChar_plain (c x : jschar) : c < 65 -> sameChar c x = (c =? x).
Proof.
  intros Hc. unfold sameChar, canonicalize.
  replace ((97 <=? c) && (c <=? 122)) with false
    by (symmetry; apply andb_false_iff; left; apply N.leb_gt; lia).
  destruct ((97 <=? x) && (x <=? 122)) eqn:Ex; [|reflexivity].
  apply andb_true_iff in Ex. destruct Ex as [E1 E2].
  apply N.leb_le in E1. apply N.leb_le in E2.
  transitivity false; [|symmetry]; apply N.eqb_neq; lia.
Qed.

Lemma colonOrSpace_class (x : jschar) :
  classMatches colonOrSpace x = (58 =? x) || isWhiteSpace x.
Proof.
  unfold classMatches, colonOrSpace. simpl.
  rewrite sameChar_plain by lia. rewrite orb_false_r. reflexivity.
Qed.

Lemma notCrLf_class (x : jschar) :
  classMatches notCrLf x = negb ((13 =? x) || (10 =? x)).
Proof.
  unfold classMatches, notCrLf. simpl.
  rewrite !sameChar_plain by lia. rewrite orb_false_r. reflexivity.
Qed.
Local Close Scope N_scope.

Lemma separator_run (sep : jsstring) :
  separator sep = true ->
  nonEmpty sep = true /\ forallb (classMatches colonOrSpace) sep = true.
Proof.
  unfold separator. intros H. apply andb_true_iff in H. destruct H as [Hn H].
  split; [exact Hn|]. rewrite forallb_forall in *. intros x Hx.
  rewrite colonOrSpace_class. auto.
Qed.

Section ColonLine.
Variables pre w1 g1 w2 g2 w3 sep : jsstring.
Hypothesis full : spelled (js "Full") w1 = true.
Hypothesis gap1 : blank g1 = true.
Hypothesis rep : spelled (js "Report") w2 = true.
Hypothesis gap2 : blank g2 = true.
Hypothesis det : spelled (js "Details") w3 = true.
Hypothesis seps : separator sep = true.

Lemma pattern2_match (url post : jsstring) :
  urlToken url = true -> tokenEnds post = true ->
  matchHere pattern2 (w1 ++ g1 ++ w2 ++ g2 ++ w3 ++ sep ++ url ++ post)
  = Some url.
Proof.
  intros token ends. unfold matchHere, pattern2. cbn [head group].
  rewrite matchAtoms_app. apply phrase_match; try assumption.
  destruct (separator_run sep seps) as [Hn Hr].
  apply plus_run; try assumption.
  - destruct (token_shape url token) as [body [_ [_ [E | E]]]]; rewrite E;
      reflexivity.
  - apply group1_match; try assumption.
    rewrite capture_length. reflexivity.
Qed.

Lemma scheme_match {A} (sch rest : jsstring) (k : jsstring -> option A) (v : A) :
  sch = js "http://" \/ sch = js "https://" ->
  k rest = Some v ->
  matchAtoms scheme (sch ++ rest) k = Some v.
Proof.
  intros Hs Hk.
  change scheme with (map Lit (js "http") ++ Opt 115%N :: map Lit (js "://")).
  destruct Hs as [-> | ->].
  - change (js "http://" ++ rest) with (js "http" ++ js "://" ++ rest).
    rewrite matchAtoms_app, matchAtoms_lits by reflexivity.
    rewrite opt_skip by reflexivity.
    rewrite matchAtoms_lits by reflexivity. exact Hk.
  - change (js "https://" ++ rest)
      with (js "http" ++ 115%N :: js "://" ++ rest).
    rewrite matchAtoms_app, matchAtoms_lits by reflexivity.
    apply (opt_take 115%N); [reflexivity|].
    rewrite matchAtoms_lits by reflexivity. exact Hk.
Qed.

Lemma pattern4_match (sch rest post : jsstring) :
  sch = js "http://" \/ sch = js "https://" ->
  nonEmpty rest = true -> sameLine rest = true -> lineEnds post = true ->
  matchHere pattern4 (w1 ++ g1 ++ w2 ++ g2 ++ w3 ++ sep ++ sch ++ rest ++ post)
  = Some (sch ++ rest).
Proof.
  intros Hs Hne Hline Hends. unfold matchHere, pattern4. cbn [head group].
  rewrite matchAtoms_app. apply phrase_match; try assumption.
  destruct (separator_run sep seps) as [Hn Hr].
  apply plus_run; try assumption.
  { destruct Hs as [-> | ->]; reflexivity. }
  rewrite matchAtoms_app. apply scheme_match; [exact Hs|].
  apply plus_run; try assumption.
  - unfold sameLine in Hline. rewrite forallb_forall in *. intros x Hx.
    rewrite notCrLf_class. auto.
  - destruct post as [|x post]; [reflexivity|]. cbn [stops lineEnds] in *.
    rewrite notCrLf_class, Hends. reflexivity.
  - f_equal. rewrite !length_app.
    replace (List.length sch + (List.length rest + List.length post)
             - List.length post)
      with (List.length (sch ++ rest) + 0) by (rewrite length_app; lia).
    rewrite app_assoc, firstn_app_2. simpl. apply app_nil_r.
Qed.
End ColonLine.

Lemma isPhraseText_parts (w1 g1 w2 g2 w3 : jsstring) :
  isPhraseText w1 g1 w2 g2 w3 = true ->
  spelled (js "Full") w1 = true /\ blank g1 = true /\
  spelled (js "Report") w2 = true /\ blank g2 = true /\
  spelled (js "Details") w3 = true.
Proof.
  unfold isPhraseText. intros H.
  repeat (apply andb_true_iff in H; destruct H as [H ?]). tauto.
Qed.

Lemma firstUrl_app (a b : list regex) (output : jsstring) :
  firstUrl (a ++ b) output
  = match firstUrl a output with
    | Some url => Some url
    | None => firstUrl b output
    end.
Proof.
  induction a as [|p a IH]; [reflexivity|]. simpl.
  destruct (exec p output) as [cap|]; [|exact IH].
  destruct (nonEmpty cap && isUrl (trim cap)); [reflexivity | exact IH].
Qed.

Lemma report_text_nonEmpty (pre w1 t : jsstring) :
  spelled (js "Full") w1 = true -> nonEmpty (pre ++ w1 ++ t) = true.
Proof.
  intros H. destruct pre; [|reflexivity]. destruct w1; [discriminate|].
  reflexivity.
Qed.

(** X8: the phrase followed by a run of colons and whitespace and a URL token
    gives that URL through the second pattern, when the first pattern
    yields no validated URL and no match of the second starts earlier. *)
Theorem colon_report_line_url_is_returned
        (pre w1 g1 w2 g2 w3 sep url post : jsstring) (w : World) :
  let output := pre ++ w1 ++ g1 ++ w2 ++ g2 ++ w3 ++ sep ++ url ++ post in
  isPhraseText w1 g1 w2 g2 w3 = true ->
  separator sep = true -> urlToken url = true -> tokenEnds post = true ->
  match exec pattern1 output with
  | Some cap => isUrl (trim cap)
  | None => false
  end = false ->
  noMatchBefore pattern2 pre
    (w1 ++ g1 ++ w2 ++ g2 ++ w3 ++ sep ++ url ++ post) = true ->
  fst (extractScanUrl output w) = Normal (Some url).
Proof.
  intros output Hph Hsep Htok Hends Hp1 Hpre.
  destruct (isPhraseText_parts _ _ _ _ _ Hph) as [H1 [H2 [H3 [H4 H5]]]].
  assert (Hexec : exec pattern2 output = Some url).
  { unfold output. rewrite (noMatchBefore_exec _ _ _ Hpre).
    apply exec_here. apply pattern2_match; assumption. }
  assert (Hsolid : forallb (fun x => negb (isWhiteSpace x)) url = true)
    by (apply token_solid; assumption).
  assert (Hurl : isUrl url = true).
  { destruct (token_shape url Htok) as [body [_ [_ [E | E]]]];
      rewrite E; reflexivity. }
  rewrite extractScanUrl_value. unfold urlFor.
  unfold output at 1. rewrite (report_text_nonEmpty pre w1 _ H1).
  fold output. unfold patterns. cbn [firstUrl].
  destruct (exec pattern1 output) as [cap|].
  - rewrite Hp1, andb_false_r, Hexec, (trim_solid url Hsolid), Hurl,
      (isUrl_nonEmpty url Hurl). reflexivity.
  - rewrite Hexec, (trim_solid url Hsolid), Hurl, (isUrl_nonEmpty url Hurl).
    reflexivity.
Qed.

Lemma colon_report_line_example :
  fst (extractScanUrl (js "Full Report Details: https://x.test/r")
         (world0 Missing))
  = Normal (Some (js "https://x.test/r")).
Proof.
  exact (colon_report_line_url_is_returned
           [] (js "Full") (js " ") (js "Report") (js " ") (js "Details")
           (js ": ") (js "https://x.test/r") [] (world0 Missing)
           eq_refl eq_refl eq_refl eq_refl eq_refl eq_refl).
Defined.

(** X9: when the first three patterns yield no validated URL, the fourth
    returns the scheme with everything up to the end of the line, trimmed:
    whitespace inside the line is kept. *)
Theorem rest_of_line_is_returned
        (pre w1 g1 w2 g2 w3 sep sch rest post : jsstring) (w : World) :
  let output :=
    pre ++ w1 ++ g1 ++ w2 ++ g2 ++ w3 ++ sep ++ sch ++ rest ++ post in
  isPhraseText w1 g1 w2 g2 w3 = true ->
  separator sep = true -> isScheme sch = true ->
  nonEmpty rest = true -> sameLine rest = true -> lineEnds post = true ->
  (forall p cap, In p [pattern1; pattern2; pattern3] ->
                 exec p output = Some cap -> isUrl (trim cap) = false) ->
  noMatchBefore pattern4 pre
    (w1 ++ g1 ++ w2 ++ g2 ++ w3 ++ sep ++ sch ++ rest ++ post) = true ->
  fst (extractScanUrl output w) = Normal (Some (trim (sch ++ rest))).
Proof.
  intros output Hph Hsep Hsch Hne Hline Hends Hfirst Hpre.
  destruct (isPhraseText_parts _ _ _ _ _ Hph) as [H1 [H2 [H3 [H4 H5]]]].
  assert (Hs : sch = js "http://" \/ sch = js "https://").
  { unfold isScheme in Hsch. apply orb_true_iff in Hsch.
    destruct Hsch as [E | E]; apply eqb_eq in E; auto. }
  assert (Hexec : exec pattern4 output = Some (sch ++ rest)).
  { unfold output. rewrite (noMatchBefore_exec _ _ _ Hpre).
    apply exec_here. apply pattern4_match; assumption. }
  assert (Hurl : isUrl (trim (sch ++ rest)) = true).
  { apply isUrl_trim. unfold isUrl. apply orb_true_iff.
    destruct Hs as [-> | ->]; [left | right]; apply startsWith_prefix. }
  assert (Hcap : nonEmpty (sch ++ rest) = true)
    by (destruct Hs as [-> | ->]; reflexivity).
  rewrite extractScanUrl_value. unfold urlFor.
  unfold output at 1. rewrite (report_text_nonEmpty pre w1 _ H1).
  fold output.
  change patterns with ([pattern1; pattern2; pattern3] ++ [pattern4]).
  rewrite firstUrl_app, (firstUrl_none _ _ Hfirst).
  cbn [firstUrl]. rewrite Hexec, Hcap, Hurl. reflexivity.
Qed.

Lemma rest_of_line_example :
  fst (extractScanUrl
         (js "Full Report Details: https:// see the portal  " ++ [10%N] ++
          js "done")
         (world0 Missing))
  = Normal (Some (js "https:// see the portal")).
Proof.
  apply (rest_of_line_is_returned
           [] (js "Full") (js " ") (js "Report") (js " ") (js "Details")
           (js ": ") (js "https://") (js " see the portal  ")
           ([10%N] ++ js "done") (world0 Missing));
    try reflexivity.
  intros p cap [<- | [<- | [<- | []]]]; vm_compute; discriminate.
Defined.

Lemma no_phrase_example :
  fst (extractScanUrl (js "Report: https://scan.example.com/r/123")
         (world0 Missing)) = Normal None.
Proof.
  apply (proj1 (no_phrase_no_text_url
                  (js "Report: https://scan.example.com/r/123")
                  (world0 Missing) eq_refl)).
  reflexivity.
Defined.

Lemma text_url_wins_example :
  fst (extractScanUrl (js "Full Report Details https://scan.example.com/r/123")
         (world0 scenarioD))
  = Normal (Some (js "https://scan.example.com/r/123")).
Proof.
  exact (text_url_wins_over_sidecar
           (js "Full Report Details https://scan.example.com/r/123")
           (js "https://scan.example.com/r/123") (world0 scenarioD) eq_refl).
Defined.

Lemma text_url_is_trimmed_example :
  trim (js "https:// see the portal") = js "https:// see the portal".
Proof.
  exact (text_url_is_trimmed
           (js "Full Report Details: https:// see the portal  ")
           (js "https:// see the portal") (world0 Missing) eq_refl eq_refl).
Defined.


(* ================================================================== *)
(** ** More on [runAction] *)

Lemma urlAfter_cases (text : jsstring) (w : World) (before : option jsstring) :
  urlAfter text w before = before \/
  exists url, urlAfter text w before = Some url /\ isUrl url = true.
Proof.
  rewrite urlAfter_urlFor.
  destruct (urlFor (sidecar w) text) as [url|] eqn:E; [right | left; reflexivity].
  exists url. split; [reflexivity | eapply urlFor_valid; eassumption].
Qed.

(** X10: whatever the system, the options, the services and the scanner do,
    a run changes the scan-url output to nothing but a string that begins
    with http:// or https://. *)
Theorem runAction_publishes_urls_only
        (env : Env) (options : Options) (p : ProcessRun) (w : World) :
  let w' := snd (runAction env options p w) in
  scanUrl w' = scanUrl w \/
  exists url, scanUrl w' = Some url /\ isUrl url = true.
Proof.
  cbv zeta. rewrite runAction_scanUrl.
  unfold scanUrlOutcome. cbv zeta.
  destruct (isWindows env).
  - destruct (execSync p); [apply urlAfter_cases|].
    destruct (createIssues options); [left; reflexivity | apply urlAfter_cases].
  - destruct (createIssues options); [apply urlAfter_cases|].
    rewrite extractScanUrl_value.
    destruct (urlFor (sidecar (afterScanner options p w))
                     (stdoutOf p ++ stderrOf p)) as [url|] eqn:E;
      [|apply urlAfter_cases].
    right. exists url. split; [reflexivity | eapply urlFor_valid; eassumption].
Qed.


(** X13: on other systems without [createIssues], when the result file is
    writable or was not there, reading it back adds nothing: the scan-url
    output is what the extractor finds in the combined output. *)
Theorem reread_adds_nothing
        (env : Env) (options : Options) (p : ProcessRun) (w : World) :
  isWindows env = false -> createIssues options = false ->
  resultWritable w = true \/ resultFile w = None ->
  scanUrl (snd (runAction env options p w))
  = urlAfter (stdoutOf p ++ stderrOf p) w (scanUrl w).
Proof.
  intros Hos Hci Hfile. rewrite runAction_scanUrl.
  unfold scanUrlOutcome. rewrite Hos, Hci, (afterScanner_without _ _ _ Hci).
  cbv zeta.
  set (combined := stdoutOf p ++ stderrOf p).
  assert (Hfo : fileOutputOf combined w = combined).
  { unfold fileOutputOf. destruct (resultWritable w).
    - destruct (nonEmpty combined && _); reflexivity.
    - destruct Hfile as [Hfile | ->]; [discriminate | reflexivity]. }
  rewrite Hfo. unfold urlAfter.
  destruct (fst (extractScanUrl combined w)) as [[url|]|]; reflexivity.
Qed.

(** X14: on other systems without [createIssues], when the write fails, an
    older and longer result file is there, and the combined output holds no
    URL, the scan-url output is what the extractor finds in the old file. *)
Theorem stale_result_file_is_searched
        (env : Env) (options : Options) (p : ProcessRun) (w : World)
        (old : jsstring) :
  isWindows env = false -> createIssues options = false ->
  resultWritable w = false -> resultFile w = Some old ->
  List.length (stdoutOf p ++ stderrOf p) < List.length old ->
  fst (extractScanUrl (stdoutOf p ++ stderrOf p) w) = Normal None ->
  scanUrl (snd (runAction env options p w)) = urlAfter old w (scanUrl w).
Proof.
  intros Hos Hci Hw Hold Hlen Hnone. rewrite runAction_scanUrl.
  unfold scanUrlOutcome. rewrite Hos, Hci, (afterScanner_without _ _ _ Hci).
  cbv zeta. rewrite Hnone.
  unfold fileOutputOf. rewrite Hw, Hold.
  assert (Hne : nonEmpty old = true) by (destruct old; [simpl in Hlen; lia | reflexivity]).
  apply Nat.ltb_lt in Hlen. rewrite Hne, Hlen. reflexivity.
Qed.

(** X15: on systems other than Windows the scan-url output, the failure
    status and the result file depend on the text of each stream, on the
    exit code and, with [createIssues], on the report the scanner leaves,
    not on how the streams were cut or interleaved. *)
Theorem shell_outcome_ignores_chunking
        (env : Env) (options : Options) (p1 p2 : ProcessRun) (w : World) :
  isWindows env = false ->
  stdoutOf p1 = stdoutOf p2 -> stderrOf p1 = stderrOf p2 ->
  exitCode p1 = exitCode p2 ->
  (createIssues options = true -> jsonReport p1 = jsonReport p2) ->
  scanUrl (snd (runAction env options p1 w))
  = scanUrl (snd (runAction env options p2 w)) /\
  failed (snd (runAction env options p1 w))
  = failed (snd (runAction env options p2 w)) /\
  resultFile (snd (runAction env options p1 w))
  = resultFile (snd (runAction env options p2 w)).
Proof.
  intros Hos Ho He Hc Hj.
  rewrite !runAction_scanUrl, !runAction_failed, !runAction_resultFile.
  assert (Hw : afterScanner options p1 w = afterScanner options p2 w).
  { unfold afterScanner, scannerWrites.
    destruct (createIssues options); [rewrite Hj|]; reflexivity. }
  unfold scanUrlOutcome, failedOutcome, resultFileOutcome.
  rewrite Hos, Ho, He, Hc, Hw. repeat split; reflexivity.
Qed.

(** X16: on systems other than Windows with [createIssues], the report
    the scanner leaves where the command tells it to is what the extractor
    falls back on: when the combined output is not empty, no pattern yields
    a validated URL in it, and the report holds a URL, that URL is the
    scan-url output, whatever file was there before the scan. *)
Theorem scanner_report_is_published
        (env : Env) (options : Options) (p : ProcessRun) (w : World)
        (sc : SidecarFile) (url : jsstring) :
  isWindows env = false -> createIssues options = true ->
  jsonReport p = Some sc ->
  nonEmpty (stdoutOf p ++ stderrOf p) = true ->
  (forall re cap, In re patterns ->
                  exec re (stdoutOf p ++ stderrOf p) = Some cap ->
                  isUrl (trim cap) = false) ->
  sidecarReport sc url ->
  scanUrl (snd (runAction env options p w)) = Some url.
Proof.
  intros Hos Hci Hj Hne Hnone Hrep. rewrite runAction_scanUrl.
  unfold scanUrlOutcome. rewrite Hos, Hci. cbv zeta.
  rewrite urlAfter_urlFor.
  assert (Hsc : sidecar (afterScanner options p w) = sc).
  { unfold afterScanner, scannerWrites. rewrite Hci, Hj. reflexivity. }
  rewrite Hsc. unfold urlFor.
  rewrite Hne, (firstUrl_none patterns _ Hnone).
  rewrite (fallbackUrl_report _ _ Hrep). reflexivity.
Qed.

(** The report the scanner leaves does matter: two runs with the same
    streams and the same exit code end with different scan-url outputs when
    only one of them leaves a report. *)
Lemma scanner_report_changes_the_outcome :
  stdoutOf silentRun = stdoutOf reportingRun /\
  stderrOf silentRun = stderrOf reportingRun /\
  exitCode silentRun = exitCode reportingRun /\
  scanUrl (snd (runAction onLinux withIssues silentRun (world0 Missing)))
  = None /\
  scanUrl (snd (runAction onLinux withIssues reportingRun (world0 Missing)))
  = Some (js "http://x.test/y").
Proof.
  split; [reflexivity|]. split; [reflexivity|]. split; [reflexivity|].
  split; vm_compute; reflexivity.
Qed.


Lemma reread_example :
  scanUrl (snd (runAction onLinux withoutIssues scenarioE (world0 Missing)))
  = Some (js "https://scan.example.com/r/123").
Proof.
  exact (reread_adds_nothing onLinux withoutIssues scenarioE (world0 Missing)
           eq_refl eq_refl (or_introl eq_refl)).
Defined.

Lemma stale_result_file_example :
  scanUrl (snd (runAction onLinux withoutIssues silentRun staleWorld))
  = Some (js "https://old.example/r/1").
Proof.
  apply (stale_result_file_is_searched onLinux withoutIssues silentRun
           staleWorld
           (js "Full Report Details https://old.example/r/1" ++ [10%N]));
    try reflexivity.
  vm_compute. lia.
Defined.

Lemma rechunked_example :
  scanUrl (snd (runAction onLinux withoutIssues scenarioE (world0 Missing)))
  = scanUrl (snd (runAction onLinux withoutIssues scenarioE_rechunked
                    (world0 Missing))).
Proof.
  exact (proj1 (shell_outcome_ignores_chunking onLinux withoutIssues
                  scenarioE scenarioE_rechunked (world0 Missing)
                  eq_refl eq_refl eq_refl eq_refl (fun _ => eq_refl))).
Defined.

Lemma scanner_report_example :
  scanUrl (snd (runAction onLinux withIssues reportingRun (world0 Missing)))
  = Some (js "http://x.test/y").
Proof.
  apply (scanner_report_is_published onLinux withIssues reportingRun
           (world0 Missing) scenarioD (js "http://x.test/y"));
    try reflexivity.
  - intros re cap [<- | [<- | [<- | [<- | []]]]]; vm_compute; discriminate.
  - eexists. split; [reflexivity|]. split; reflexivity.
Defined.
